(** * pythia: recovery of Delphi class metadata from PE images

    A shallow embedding of [pythia/core/windows.py] (class [PEHandler]):
    the TObject locator [_find_tobject], the vftable scanner
    [_find_vftables] and the driver [analyse], together with the
    properties of them that the specification states.

    The collaborators that live in other modules of the package
    ([helpers.PESection], [helpers.WorkQueue], [utils.unpack_stream],
    the object constructors of [objects], [helpers.VersionHelper],
    [helpers.UnitInitHelper]) are modelled at their interface. *)

From Stdlib Require Import ZArith List Bool Lia String Sorted.
From Stdlib.Strings Require Import Byte.
Import ListNotations.
Open Scope Z_scope.

(* ================================================================== *)
(** * Exceptions and results *)

(** The Python exceptions that can travel through the code under study. *)
Inductive exn : Type :=
| StructError                    (* short read inside [unpack_stream] *)
| ObjectsInMoreThanOneSection    (* [raise Exception("Objects in more than one section")] *)
| ValidationError                (* raised by object constructors *)
| TypeError                      (* an operand of the wrong type *)
| AttributeError                 (* an attribute of [None] *)
| OtherError.                    (* any other exception of a constructor *)

(** Outcome of running a piece of code: a value, an exception, or the
    loop bound of the model was reached before the code finished. *)
Inductive result (A : Type) : Type :=
| Ok (a : A)
| Raise (e : exn)
| OutOfFuel.

Arguments Ok {A} a.
Arguments Raise {A} e.
Arguments OutOfFuel {A}.

(* ================================================================== *)
(** * Section maps ([helpers.PESection]) *)

Record PESection : Type := {
  name : string;
  load_address : Z;
  size : Z;
  stream_data : list byte        (* the bytes behind the [io.BytesIO] *)
}.

(** Modelled from the spec: [PESection.contains_va] is not in this file;
    the address range of a section is the half-open interval
    [load_address <= va < load_address + size]. *)
Definition contains_va (s : PESection) (va : Z) : bool :=
  (load_address s <=? va) && (va <? load_address s + size s).

(** Modelled from the spec: [PESection.offset_from_va],
    [offset = va - load_address]. *)
Definition offset_from_va (s : PESection) (va : Z) : Z :=
  va - load_address s.

(** Modelled from the spec: [PESection.va_from_offset], the inverse
    translation. *)
Definition va_from_offset (s : PESection) (offset : Z) : Z :=
  offset + load_address s.

(* ================================================================== *)
(** * The byte stream and [unpack_stream] *)

(** Value of four bytes read as one little-endian unsigned 32-bit field. *)
Definition le32 (b0 b1 b2 b3 : byte) : Z :=
  Z.of_N (Byte.to_N b0)
  + Z.shiftl (Z.of_N (Byte.to_N b1)) 8
  + Z.shiftl (Z.of_N (Byte.to_N b2)) 16
  + Z.shiftl (Z.of_N (Byte.to_N b3)) 24.

(** The 32-bit field that starts at byte [off] of [data], when four
    bytes are available there. *)
Definition read_u32 (data : list byte) (off : Z) : option Z :=
  if off <? 0 then None
  else match skipn (Z.to_nat off) data with
       | b0 :: b1 :: b2 :: b3 :: _ => Some (le32 b0 b1 b2 b3)
       | _ => None
       end.

(** State of one [io.BytesIO]: the read cursor, and (ghost) the log of
    the reads performed, as pairs (offset, number of bytes). *)
Record cursor : Type := {
  pos : Z;
  reads : list (Z * Z)
}.

Definition fresh_cursor : cursor := {| pos := 0; reads := [] |}.

(** State-and-exception monad of stream operations. *)
Definition Stream (A : Type) : Type := cursor -> result (A * cursor).

Definition ret {A} (a : A) : Stream A := fun c => Ok (a, c).

Definition bind {A B} (m : Stream A) (k : A -> Stream B) : Stream B :=
  fun c => match m c with
           | Ok (a, c') => k a c'
           | Raise e => Raise e
           | OutOfFuel => OutOfFuel
           end.

Notation "x <- m ;; k" := (bind m (fun x => k))
  (at level 61, m at next level, right associativity).
Notation "' pat <- m ;; k" := (bind m (fun x => match x with pat => k end))
  (at level 61, pat pattern, m at next level, right associativity).

(** [stream.seek(offset)].  Every offset the code seeks to is
    non-negative. *)
Definition seek (offset : Z) : Stream unit :=
  fun c => Ok (tt, {| pos := offset; reads := reads c |}).

(** Modelled from the spec: [utils.unpack_stream] is not in this file.
    [unpack_stream("I", stream)] reads one little-endian 32-bit field at
    the cursor and advances it; a read that does not find four bytes
    fails. *)
Definition unpack_I (data : list byte) : Stream Z :=
  fun c => match read_u32 data (pos c) with
           | Some v => Ok (v, {| pos := pos c + 4;
                                 reads := reads c ++ [(pos c, 4)] |})
           | None => Raise StructError
           end.

(** Modelled from the spec: [unpack_stream("III", stream)], three
    consecutive fields in one read of twelve bytes. *)
Definition unpack_III (data : list byte) : Stream (Z * Z * Z) :=
  fun c => match read_u32 data (pos c),
                 read_u32 data (pos c + 4),
                 read_u32 data (pos c + 8) with
           | Some a, Some b, Some d =>
               Ok ((a, b, d), {| pos := pos c + 12;
                                 reads := reads c ++ [(pos c, 12)] |})
           | _, _, _ => Raise StructError
           end.

(* ================================================================== *)
(** * [_find_tobject] *)

(** The start of the name field, [\x07TObj]. *)
Definition TOBJECT_NAME : Z := 0x624F5407.

(** What one turn of the scan loop decides. *)
Inductive verdict : Type :=
| Continue
| Break (difference : Z).

(** Body of the [while] loop of [_find_tobject] at position [j]. *)
Definition tobject_probe (s : PESection) (j : Z) : Stream verdict :=
  _ <- seek j ;;
  '(ptr, check1, check2) <- unpack_III (stream_data s) ;;
  if negb (check1 =? 0) || negb (check2 =? 0) then ret Continue else
  if negb (contains_va s ptr) then ret Continue else
  let offset := offset_from_va s ptr in
  let difference := offset - j in
  if (difference <? 36) || (difference >? 128) then ret Continue else
  _ <- seek (j + 32) ;;
  name_ptr <- unpack_I (stream_data s) ;;
  if negb (contains_va s name_ptr) then ret Continue else
  _ <- seek (offset_from_va s name_ptr) ;;
  nm <- unpack_I (stream_data s) ;;
  if nm =? TOBJECT_NAME then ret (Break difference) else ret Continue.

(** The [while i < code_section.size - 128] loop.  The result is the
    pair of [j] and [confirmed_distance] at a [break], or [None] when the
    loop condition fails. *)
Fixpoint find_tobject_loop (fuel : nat) (s : PESection) (i : Z)
  : Stream (option (Z * Z)) :=
  if i <? size s - 128 then
    match fuel with
    | O => fun _ => OutOfFuel
    | S fuel' =>
        let j := i in
        let i := i + 4 in
        v <- tobject_probe s j ;;
        match v with
        | Continue => find_tobject_loop fuel' s i
        | Break d => ret (Some (j, d))
        end
    end
  else ret None.

(** The dictionary [_find_tobject] returns. *)
Record TObjectResult : Type := {
  va : Z;
  vftable_length : Z
}.

(** Number of loop turns that is always enough: the loop advances by 4. *)
Definition scan_fuel (s : PESection) : nat := Z.to_nat (size s).

Definition find_tobject_stream (s : PESection)
  : Stream (option TObjectResult) :=
  r <- find_tobject_loop (scan_fuel s) s 0 ;;
  match r with
  | Some (j, confirmed_distance) =>
      (* [if confirmed_distance:] is Python truthiness *)
      if negb (confirmed_distance =? 0)
      then ret (Some {| va := va_from_offset s j;
                        vftable_length := confirmed_distance |})
      else ret None
  | None => ret None
  end.

(** Value of a stream computation, started on a fresh stream.  Both
    scans seek before they read, so that their value is the same from
    any cursor (lemmas [find_tobject_any_cursor] and
    [find_vftables_any_cursor]). *)
Definition value_of {A} (m : Stream A) : result A :=
  match m fresh_cursor with
  | Ok (a, _) => Ok a
  | Raise e => Raise e
  | OutOfFuel => OutOfFuel
  end.

Definition find_tobject (s : PESection) : result (option TObjectResult) :=
  value_of (find_tobject_stream s).

(* ================================================================== *)
(** * The work queue ([helpers.WorkQueue]) and recovered objects *)

(** Kinds of object a queue item can ask for: the class [Vftable] of
    [objects], or one of the RTTI record classes. *)
Inductive ObjKind : Type :=
| Vftable
| Rtti (tag : nat).

Definition kind_eqb (a b : ObjKind) : bool :=
  match a, b with
  | Vftable, Vftable => true
  | Rtti m, Rtti n => Nat.eqb m n
  | _, _ => false
  end.

Record WorkItem : Type := {
  item_type : ObjKind;
  location : Z
}.

(** Modelled from the spec: [helpers.WorkQueue] is not in this file.  The
    queue is insertion ordered, without deduplication. *)
Definition WorkQueue : Type := list WorkItem.

(** Modelled from the spec: [WorkQueue.add_item(location, item_type)]
    appends to the backlog. *)
Definition add_item (q : WorkQueue) (loc : Z) (k : ObjKind) : WorkQueue :=
  q ++ [{| item_type := k; location := loc |}].

Definition wanted (obj_type : option ObjKind) (it : WorkItem) : bool :=
  match obj_type with
  | None => true
  | Some k => kind_eqb k (item_type it)
  end.

(** Modelled from the spec: [WorkQueue.get_item(obj_type=None)] removes
    and returns the oldest item (of the requested kind when one is
    given), or nothing when there is none. *)
Fixpoint get_item (obj_type : option ObjKind) (q : WorkQueue)
  : option (WorkItem * WorkQueue) :=
  match q with
  | [] => None
  | it :: rest =>
      if wanted obj_type it then Some (it, rest)
      else match get_item obj_type rest with
           | Some (x, rest') => Some (x, it :: rest')
           | None => None
           end
  end.

(** A recovered object: its kind, its address and its raw fields. *)
Record RecoveredObject : Type := {
  obj_kind : ObjKind;
  obj_va : Z;
  obj_fields : list Z
}.

(** The compiler generation, as [helpers.VersionHelper] classifies it. *)
Definition VersionFact : Type := nat.

(* ================================================================== *)
(** * The recovery context *)

Record Context : Type := {
  code_sections : list PESection;
  data_sections : list PESection;
  header_length : option Z;
  object_section : option PESection;
  version : option VersionFact;
  items : list RecoveredObject;
  license : option string;
  units : option (list string)
}.

Definition set_sections (c : Context) (cs ds : list PESection) : Context :=
  {| code_sections := cs; data_sections := ds;
     header_length := header_length c; object_section := object_section c;
     version := version c; items := items c;
     license := license c; units := units c |}.

Definition set_tobject (c : Context) (h : Z) (s : PESection) : Context :=
  {| code_sections := code_sections c; data_sections := data_sections c;
     header_length := Some h; object_section := Some s;
     version := version c; items := items c;
     license := license c; units := units c |}.

Definition set_version (c : Context) (v : VersionFact) : Context :=
  {| code_sections := code_sections c; data_sections := data_sections c;
     header_length := header_length c; object_section := object_section c;
     version := Some v; items := items c;
     license := license c; units := units c |}.

Definition append_item (c : Context) (o : RecoveredObject) : Context :=
  {| code_sections := code_sections c; data_sections := data_sections c;
     header_length := header_length c; object_section := object_section c;
     version := version c; items := items c ++ [o];
     license := license c; units := units c |}.

(* ================================================================== *)
(** * [_find_vftables] *)

(** The inner [while j:] loop over the five header slots that follow the
    self pointer; the reads continue at the cursor. *)
Fixpoint check_headers (j : nat) (s : PESection) (error : bool)
  : Stream bool :=
  match j with
  | O => ret error
  | S j' =>
      ptr <- unpack_I (stream_data s) ;;
      let error :=
        if negb (ptr =? 0) && negb (contains_va s ptr) then true else error in
      check_headers j' s error
  end.

(** Body of the outer loop at offset [i]: is [i] enqueued? *)
Definition vftable_probe (s : PESection) (H i : Z) : Stream bool :=
  _ <- seek i ;;
  ptr <- unpack_I (stream_data s) ;;
  let va := load_address s + i in
  if va + H =? ptr then
    error <- check_headers 5 s false ;;
    ret (negb error)
  else ret false.

(** The [while i < section.size - context.header_length] loop, with the
    counter [found] and the work queue it appends to. *)
Fixpoint find_vftables_loop (fuel : nat) (s : PESection) (H i : Z)
    (found : Z) (wq : WorkQueue) : Stream (Z * WorkQueue) :=
  if i <? size s - H then
    match fuel with
    | O => fun _ => OutOfFuel
    | S fuel' =>
        hit <- vftable_probe s H i ;;
        if hit
        then find_vftables_loop fuel' s H (i + 4) (found + 1)
               (add_item wq (load_address s + i) Vftable)
        else find_vftables_loop fuel' s H (i + 4) found wq
    end
  else ret (found, wq).

Definition find_vftables_in (s : PESection) (H : Z) (wq : WorkQueue)
  : result (Z * WorkQueue) :=
  value_of (find_vftables_loop (Z.to_nat (size s - H)) s H 0 0 wq).

(** [_find_vftables(context)]: the section and the header length come
    from the context.  The loop condition is evaluated first: with no
    section, [section.size] is an attribute of [None]; with a section and
    no header length, the subtraction has [None] as an operand. *)
Definition find_vftables (context : Context) (wq : WorkQueue)
  : result (Z * WorkQueue) :=
  match object_section context with
  | None => Raise AttributeError
  | Some section =>
      match header_length context with
      | None => Raise TypeError
      | Some H => find_vftables_in section H wq
      end
  end.

(** The work queue is an attribute of the handler and [add_item] changes
    it in place: what the scan has appended stays in the queue when a
    later read raises.  [work_queue_loop] follows the loop of
    [_find_vftables] and gives the queue as the loop leaves it, however
    it ends. *)
Fixpoint work_queue_loop (fuel : nat) (s : PESection) (H i : Z)
    (wq : WorkQueue) (c : cursor) : WorkQueue :=
  if i <? size s - H then
    match fuel with
    | O => wq
    | S fuel' =>
        match vftable_probe s H i c with
        | Ok (hit, c') =>
            work_queue_loop fuel' s H (i + 4)
              (if hit then add_item wq (load_address s + i) Vftable else wq)
              c'
        | _ => wq
        end
    end
  else wq.

(** The work queue after [_find_vftables(context)], whether it returned
    or raised. *)
Definition work_queue_after_scan (context : Context) (wq : WorkQueue)
  : WorkQueue :=
  match object_section context, header_length context with
  | Some section, Some H =>
      work_queue_loop (Z.to_nat (size section - H)) section H 0 wq
                      fresh_cursor
  | _, _ => wq
  end.

(* ================================================================== *)
(** * The executable and the collaborators of [analyse] *)

(** One entry of [pe.sections]: its characteristics flags and the
    [PESection(section, mapped_data)] built from it. *)
Record RawSection : Type := {
  Characteristics : Z;
  mapped : PESection
}.

(** [pefile.SECTION_CHARACTERISTICS]. *)
Definition IMAGE_SCN_CNT_CODE : Z := 0x20.
Definition IMAGE_SCN_CNT_INITIALIZED_DATA : Z := 0x40.

(** What building an object from a queue item gives. *)
Inductive outcome : Type :=
| Constructed (obj : RecoveredObject)
| Failed (e : exn).

(** Everything [analyse] depends on and this file does not define. *)
Record World : Type := {
  pe_sections : list RawSection;
  (** the entry point the executable declares, as a virtual address *)
  entry_point : Z;
  (** [UnitInitHelper.find_init_table()] *)
  find_init_table : option Z;
  (** Modelled from the spec: the constructors of [objects] are not in
      this file.  Called as [item_type(section, location, context,
      work_queue=...)], a constructor reads the context, may add
      follow-up work to the queue, and either returns the object or
      raises. *)
  construct : ObjKind -> PESection -> Z -> Context -> WorkQueue ->
              WorkQueue * outcome;
  (** [VersionHelper(context)] *)
  VersionHelper : Context -> VersionFact;
  (** the context handed to [PEHandler.__init__] *)
  context0 : Context
}.

(** [_find_sections(flags)]. *)
Definition find_sections (w : World) (flags : Z) : list PESection :=
  map mapped
      (filter (fun r => negb (flags =? 0)
                        && negb (Z.land (Characteristics r) flags =? 0))
              (pe_sections w)).

Definition find_code_sections (w : World) : list PESection :=
  find_sections w IMAGE_SCN_CNT_CODE.

Definition find_data_sections (w : World) : list PESection :=
  find_sections w IMAGE_SCN_CNT_INITIALIZED_DATA.

(** Python truthiness of [table_pos]. *)
Definition truthy (table_pos : option Z) : bool :=
  match table_pos with
  | Some p => negb (p =? 0)
  | None => false
  end.

(* ================================================================== *)
(** * Observable events of one run *)

Inductive Pass : Type := PassA | PassB.

Inductive level : Type := Info | Warning | Error.

Inductive Event : Type :=
| EvFindInitTable
| EvLog (l : level) (text : string)
| EvParseInitTable (s : PESection) (table_pos : Z)
| EvFindTObject (s : PESection)
| EvFindVftables
| EvConstruct (p : Pass) (k : ObjKind) (s : PESection) (loc : Z)
              (r : outcome)
| EvVersion.

(** How a run of [analyse] ends. *)
Inductive Status : Type :=
| Finished                (* control reached the end of [analyse] *)
| ReturnedEarly           (* one of the two bare [return] statements *)
| Raised (e : exn)        (* an exception left [analyse] *)
| Unfinished.             (* the model's loop bound ran out *)

(** A run: how it ended, the context and queue it leaves, and what it
    did, oldest event first. *)
Record Run : Type := {
  status : Status;
  ctx : Context;
  wq : WorkQueue;
  events : list Event
}.

Definition after (pre : list Event) (r : Run) : Run :=
  {| status := status r; ctx := ctx r; wq := wq r;
     events := pre ++ events r |}.

(* ================================================================== *)
(** * [analyse] *)

(** The first [for s in sections] loop, with its [break]. *)
Definition select_code_section (sections : list PESection)
  : option PESection :=
  find (fun s => contains_va s (load_address s)) sections.

(** Step 1: [for s in self.context.code_sections], carrying [found] and
    the context. *)
Fixpoint locate_tobject (sections : list PESection) (found : bool)
    (c : Context) : Run * bool :=
  match sections with
  | [] => ({| status := Finished; ctx := c; wq := []; events := [] |}, found)
  | s :: rest =>
      match find_tobject s with
      | Raise e =>
          ({| status := Raised e; ctx := c; wq := [];
              events := [EvFindTObject s] |}, found)
      | OutOfFuel =>
          ({| status := Unfinished; ctx := c; wq := [];
              events := [EvFindTObject s] |}, found)
      | Ok None =>
          let (r, f) := locate_tobject rest found c in
          (after [EvFindTObject s] r, f)
      | Ok (Some res) =>
          if found then
            ({| status := Raised ObjectsInMoreThanOneSection; ctx := c;
                wq := [];
                events := [EvFindTObject s;
                           EvLog Info "Found TObject in section";
                           EvLog Error "Found TObject in multiple sections"] |},
             found)
          else
            let (r, f) :=
              locate_tobject rest true
                             (set_tobject c (vftable_length res) s) in
            (after [EvFindTObject s; EvLog Info "Found TObject in section"] r,
             f)
      end
  end.

(** The filter each pass hands to [get_item]. *)
Definition pass_filter (p : Pass) : option ObjKind :=
  match p with
  | PassA => Some Vftable
  | PassB => None
  end.

(** Steps 3 and 5: the [while item:] loops. *)
Fixpoint parse_queue (w : World) (p : Pass) (code_section : PESection)
    (fuel : nat) (c : Context) (q : WorkQueue) : Run :=
  match get_item (pass_filter p) q with
  | None => {| status := Finished; ctx := c; wq := q; events := [] |}
  | Some (item, q1) =>
      match fuel with
      | O => {| status := Unfinished; ctx := c; wq := q; events := [] |}
      | S fuel' =>
          let (q2, r) :=
            construct w (item_type item) code_section (location item) c q1 in
          let ev :=
            EvConstruct p (item_type item) code_section (location item) r in
          match r with
          | Constructed obj =>
              after [ev] (parse_queue w p code_section fuel'
                                      (append_item c obj) q2)
          | Failed ValidationError =>
              after [ev] (parse_queue w p code_section fuel' c q2)
          | Failed e =>
              {| status := Raised e; ctx := c; wq := q2; events := [ev] |}
          end
      end
  end.

(** Steps 2 to 5, once TObject has been found.  When the scanner raises,
    the exception leaves [analyse], and the work queue keeps the items
    the scanner had appended up to then. *)
Definition analyse_objects (w : World) (code_section : PESection)
    (fuel : nat) (c : Context) : Run :=
  match find_vftables c [] with
  | Raise e =>
      {| status := Raised e; ctx := c; wq := work_queue_after_scan c [];
         events := [EvLog Info "Step 2"; EvFindVftables] |}
  | OutOfFuel =>
      {| status := Unfinished; ctx := c; wq := work_queue_after_scan c [];
         events := [EvLog Info "Step 2"; EvFindVftables] |}
  | Ok (_, q) =>
      let a := parse_queue w PassA code_section fuel c q in
      after [EvLog Info "Step 2"; EvFindVftables; EvLog Info "Step 3"]
        match status a with
        | Finished =>
            let c' := set_version (ctx a) (VersionHelper w (ctx a)) in
            after (events a ++ [EvLog Info "Step 4"; EvVersion;
                                EvLog Info "Step 5"])
                  (parse_queue w PassB code_section fuel c' (wq a))
        | _ => a
        end
  end.

(** [analyse()].  Modelled from the spec: [UnitInitHelper.parse_init_table]
    is not in this file.  The table is "used here only as an anchor to
    locate the principal code section" and the value of the call is
    never used: the call is recorded as an event, and is taken to return and
    to leave the context as it is. *)
Definition analyse (w : World) (fuel : nat) : Run :=
  let table_pos := find_init_table w in
  let sections := find_code_sections w in
  let c := set_sections (context0 w) sections (find_data_sections w) in
  after (EvFindInitTable ::
         if truthy table_pos then []
         else [EvLog Warning
                 "Unit initialisation table not found, cannot continue"])
    match select_code_section sections with
    | None =>
        {| status := ReturnedEarly; ctx := c; wq := [];
           events := [EvLog Error
             "Could not find code section containing the entry point"] |}
    | Some code_section =>
        after (EvLog Info "Analysing section" ::
               (match table_pos with
                | Some p => if truthy table_pos
                            then [EvParseInitTable code_section p] else []
                | None => []
                end) ++ [EvLog Info "Step 1"])
          (let (r, found) := locate_tobject (code_sections c) false c in
           match status r with
           | Finished =>
               if found then
                 after (events r)
                       (analyse_objects w code_section fuel (ctx r))
               else
                 after (events r)
                   {| status := ReturnedEarly; ctx := ctx r; wq := [];
                      events := [EvLog Error
                        "Did not find TObject in any code section"] |}
           | _ => r
           end)
    end.

(* ================================================================== *)
(** * The statements of the specification, in its own words *)

(** Positions the TObject scan visits: 4-byte aligned, from 0, stopping
    128 bytes before the end of the section. *)
Definition scan_position (s : PESection) (j : Z) : Prop :=
  0 <= j < size s - 128 /\ j mod 4 = 0.

(** The five checks of the TObject locator at position [j]; the value is
    the [difference] when they all hold. *)
Definition accepted_at (s : PESection) (j : Z) : option Z :=
  let d := stream_data s in
  match read_u32 d j, read_u32 d (j + 4), read_u32 d (j + 8),
        read_u32 d (j + 32) with
  | Some ptr, Some check1, Some check2, Some name_ptr =>
      let difference := offset_from_va s ptr - j in
      if (check1 =? 0) && (check2 =? 0)
         && contains_va s ptr
         && (36 <=? difference) && (difference <=? 128)
         && contains_va s name_ptr
         && match read_u32 d (offset_from_va s name_ptr) with
            | Some nm => nm =? TOBJECT_NAME
            | None => false
            end
      then Some difference else None
  | _, _, _, _ => None
  end.

(** What the loop body does at [j], whatever the cursor was before. *)
Definition probe_value (s : PESection) (j : Z) : result verdict :=
  value_of (tobject_probe s j).

(** A header slot is acceptable when it is null or points into the
    section. *)
Definition slot_ok (s : PESection) (v : Z) : bool :=
  (v =? 0) || contains_va s v.

(** The vftable test at offset [i]: the self pointer, then the five
    header slots that follow it. *)
Definition vftable_candidate (s : PESection) (H i : Z) : bool :=
  let d := stream_data s in
  match read_u32 d i with
  | Some ptr =>
      (ptr =? load_address s + i + H)
      && forallb (fun k => match read_u32 d (i + 4 * k) with
                           | Some v => slot_ok s v
                           | None => false
                           end) [1; 2; 3; 4; 5]
  | None => false
  end.

(** [n] consecutive 4-byte-aligned offsets from [i]. *)
Fixpoint offsets_from (i : Z) (n : nat) : list Z :=
  match n with
  | O => []
  | S n' => i :: offsets_from (i + 4) n'
  end.

(** The aligned offsets below [bound], in increasing order. *)
Definition scan_offsets (bound : Z) : list Z :=
  offsets_from 0 (Z.to_nat ((bound + 3) / 4)).

(** The stream of a section holds all [size] bytes of it. *)
Definition mapped_in_full (s : PESection) : Prop :=
  size s <= Z.of_nat (List.length (stream_data s)).

(** The reads that the loop body of the scanner performs at offset [i]
    find their bytes: the self pointer and, when the self-pointer test
    holds, the five header slots behind it. *)
Definition probe_readable (s : PESection) (H i : Z) : bool :=
  let d := stream_data s in
  match read_u32 d i with
  | Some ptr =>
      if load_address s + i + H =? ptr
      then forallb (fun k => match read_u32 d (i + 4 * k) with
                             | Some _ => true
                             | None => false
                             end) [1; 2; 3; 4; 5]
      else true
  | None => false
  end.

(** The code sections of a world in which the TObject scan accepts. *)
Definition accepts (s : PESection) : bool :=
  match find_tobject s with
  | Ok (Some _) => true
  | _ => false
  end.

Definition accepting_sections (w : World) : list PESection :=
  filter accepts (find_code_sections w).

Definition is_construct (e : Event) : bool :=
  match e with EvConstruct _ _ _ _ _ => true | _ => false end.

Definition is_construct_in (p : Pass) (e : Event) : bool :=
  match e, p with
  | EvConstruct PassA _ _ _ _, PassA => true
  | EvConstruct PassB _ _ _ _, PassB => true
  | _, _ => false
  end.

Definition is_version (e : Event) : bool :=
  match e with EvVersion => true | _ => false end.

(** Events of the stages that follow base-object discovery. *)
Definition is_later_stage (e : Event) : bool :=
  match e with
  | EvFindVftables | EvConstruct _ _ _ _ _ | EvVersion => true
  | _ => false
  end.

(** Events of every stage after the search for the unit initialisation
    table. *)
Definition is_stage_after_init_table (e : Event) : bool :=
  match e with
  | EvFindTObject _ | EvFindVftables | EvConstruct _ _ _ _ _
  | EvVersion => true
  | _ => false
  end.

(** The objects the successful constructions of a trace produced. *)
Fixpoint built (evs : list Event) : list RecoveredObject :=
  match evs with
  | [] => []
  | EvConstruct _ _ _ _ (Constructed obj) :: rest => obj :: built rest
  | _ :: rest => built rest
  end.

(** The locator as the specification describes it: the first accepted
    position is returned with its difference, and a section without an
    accepted position gives no result. *)
Definition locator_returns_first_accepted (s : PESection) : Prop :=
  (forall j d,
      scan_position s j -> accepted_at s j = Some d ->
      (forall j', scan_position s j' -> j' < j -> accepted_at s j' = None) ->
      find_tobject s = Ok (Some {| va := va_from_offset s j;
                                   vftable_length := d |}))
  /\ ((forall j, scan_position s j -> accepted_at s j = None) ->
      find_tobject s = Ok None).

(** The queue item the scanner adds for offset [i] of section [s]. *)
Definition vftable_item (s : PESection) (i : Z) : WorkItem :=
  {| item_type := Vftable; location := load_address s + i |}.

(** The context after the objects [l] have been appended, one by one. *)
Definition add_items (c : Context) (l : list RecoveredObject) : Context :=
  fold_left append_item l c.

(** The scanner as the specification describes it, run with the section
    and the header length that base-object discovery records: it
    returns the number of candidates, each of them enqueued. *)
Definition scanner_returns_candidates (s : PESection) : Prop :=
  forall c r q,
    find_tobject s = Ok (Some r) ->
    let H := vftable_length r in
    let hits := filter (vftable_candidate s H) (scan_offsets (size s - H)) in
    find_vftables (set_tobject c H s) q
    = Ok (Z.of_nat (List.length hits), q ++ map (vftable_item s) hits).




(** No event of a parsing pass and no version inference. *)
Definition quiet (evs : list Event) : Prop :=
  forallb (fun e => negb (is_construct e) && negb (is_version e)) evs = true.

(** Number of times the version inferer ran. *)
Definition version_runs (evs : list Event) : nat :=
  List.length (filter is_version evs).

(** No scan of a code section raised. *)
Definition scans_return (w : World) : Prop :=
  forall s, In s (find_code_sections w) ->
            exists r, find_tobject s = Ok r.

(** The same executable with another declared entry point. *)
Definition with_entry_point (w : World) (e : Z) : World :=
  {| pe_sections := pe_sections w; entry_point := e;
     find_init_table := find_init_table w; construct := construct w;
     VersionHelper := VersionHelper w; context0 := context0 w |}.

Definition is_parse_init_table (e : Event) : bool :=
  match e with EvParseInitTable _ _ => true | _ => false end.

(** "Version inference is performed exactly once in every run." *)
Definition version_inferred_exactly_once (w : World) (fuel : nat) : Prop :=
  version_runs (events (analyse w fuel)) = 1%nat.


(** "Pass A never constructs an object before the version inferer has
    run." *)
Definition no_pass_a_object_before_version (w : World) (fuel : nat)
  : Prop :=
  forall pre k s loc o post,
    events (analyse w fuel) = pre ++ EvConstruct PassA k s loc o :: post ->
    In EvVersion pre.

(** Sections in which TObject has been accepted so far: those of
    [secs], and one more when [found] was already set. *)
Definition tobject_hits (secs : list PESection) (found : bool) : nat :=
  (List.length (filter accepts secs) + if found then 1 else 0)%nat.

(** Two contexts that differ at most in what base-object discovery
    records. *)
Definition same_recovery (c c' : Context) : Prop :=
  code_sections c' = code_sections c /\
  data_sections c' = data_sections c /\
  version c' = version c /\
  items c' = items c.

(** The outcome of a stream computation without the cursor it leaves. *)
Definition strip {A} (r : result (A * cursor)) : result A :=
  match r with
  | Ok (a, _) => Ok a
  | Raise e => Raise e
  | OutOfFuel => OutOfFuel
  end.

(** A computation whose outcome does not depend on the cursor it is
    started with. *)
Definition cursor_free {A} (m : Stream A) : Prop :=
  forall c c', strip (m c) = strip (m c').

(** A computation whose outcome, and the position it leaves the cursor
    at, depend on the position of the cursor only (not on the log). *)
Definition position_determined {A} (m : Stream A) : Prop :=
  forall c c', pos c = pos c' ->
    match m c, m c' with
    | Ok (a, d), Ok (a', d') => a = a' /\ pos d = pos d'
    | Raise e, Raise e' => e = e'
    | OutOfFuel, OutOfFuel => True
    | _, _ => False
    end.

(** A stream computation that can only fail with a short read. *)
Definition only_short_reads {A} (m : Stream A) : Prop :=
  forall c e, m c = Raise e -> e = StructError.

(** Events pass [p] can emit: constructions of this pass, on the code
    section, of items the pass asked the queue for. *)
Definition pass_event (p : Pass) (code_section : PESection) (e : Event)
  : Prop :=
  exists k loc o,
    e = EvConstruct p k code_section loc o /\
    wanted (pass_filter p) {| item_type := k; location := loc |} = true.

(** Base-object discovery has recorded a section and a header length
    within the bounds the locator checks. *)
Definition located (c : Context) : Prop :=
  exists s H, object_section c = Some s /\ header_length c = Some H /\
              36 <= H <= 128.

(* ================================================================== *)
(** * Concrete images *)

Definition byte_of_Z (z : Z) : byte :=
  match Byte.of_N (Z.to_N (z mod 256)) with
  | Some b => b
  | None => x00
  end.

(** The four bytes of a little-endian 32-bit field. *)
Definition dword (z : Z) : list byte :=
  [byte_of_Z z; byte_of_Z (Z.shiftr z 8);
   byte_of_Z (Z.shiftr z 16); byte_of_Z (Z.shiftr z 24)].

Definition dwords (zs : list Z) : list byte := flat_map dword zs.

Definition zeros (n : nat) : list Z := repeat 0 n.

(** A 136-byte code section at 0x401000 that starts with a table whose
    self pointer is 40 bytes ahead, and whose name pointer (slot 8)
    leads to [\x07TObj] at offset 44. *)
Definition tobject_section : PESection :=
  {| name := "CODE"; load_address := 0x401000; size := 136;
     stream_data :=
       dwords ([0x401028; 0; 0] ++ zeros 5 ++ [0x40102C; 0; 0; TOBJECT_NAME]
               ++ zeros 22) |}.

(** A 132-byte section whose only scanned position passes the first four
    checks, with a name pointer to the last byte of the section. *)
Definition short_name_section : PESection :=
  {| name := "CODE"; load_address := 0x401000; size := 132;
     stream_data :=
       dwords ([0x401028; 0; 0] ++ zeros 5 ++ [0x401083] ++ zeros 24) |}.

(** A 16-byte code section without any table. *)
Definition stub_section : PESection :=
  {| name := ".itext"; load_address := 0x400000; size := 16;
     stream_data := dwords (zeros 4) |}.

(** A second section with the base-object pattern, at 0x402000. *)
Definition tobject_section2 : PESection :=
  {| name := "CODE2"; load_address := 0x402000; size := 136;
     stream_data :=
       dwords ([0x402028; 0; 0] ++ zeros 5 ++ [0x40202C; 0; 0; TOBJECT_NAME]
               ++ zeros 22) |}.

(** [tobject_section] with a stream that ends after 48 bytes, just
    behind the name of TObject. *)
Definition truncated_section : PESection :=
  {| name := "CODE"; load_address := 0x401000; size := 136;
     stream_data :=
       dwords ([0x401028; 0; 0] ++ zeros 5
               ++ [0x40102C; 0; 0; TOBJECT_NAME]) |}.


Definition empty_context : Context :=
  {| code_sections := []; data_sections := [];
     header_length := None; object_section := None;
     version := None; items := [];
     license := None; units := None |}.

(** A constructor that accepts a location inside the section it is
    given, and rejects any other with a validation error. *)
Definition in_section_constructor (k : ObjKind) (s : PESection) (loc : Z)
    (c : Context) (q : WorkQueue) : WorkQueue * outcome :=
  (q, if contains_va s loc
      then Constructed {| obj_kind := k; obj_va := loc; obj_fields := [] |}
      else Failed ValidationError).

Definition code (s : PESection) : RawSection :=
  {| Characteristics := IMAGE_SCN_CNT_CODE; mapped := s |}.

(** A constructor whose Vftable objects enqueue two RTTI records behind
    them; the first kind of record never validates. *)
Definition chaining_constructor (k : ObjKind) (s : PESection) (loc : Z)
    (c : Context) (q : WorkQueue) : WorkQueue * outcome :=
  match k with
  | Vftable =>
      (add_item (add_item q (loc + 4) (Rtti 0)) (loc + 8) (Rtti 1),
       Constructed {| obj_kind := k; obj_va := loc; obj_fields := [] |})
  | Rtti O => (q, Failed ValidationError)
  | Rtti (S _) =>
      (q, Constructed {| obj_kind := k; obj_va := loc; obj_fields := [] |})
  end.


(** One code section holding TObject; no unit initialisation table. *)
Definition plain_world : World :=
  {| pe_sections := [code tobject_section];
     entry_point := 0x401000;
     find_init_table := None;
     construct := in_section_constructor;
     VersionHelper := fun _ => 7%nat;
     context0 := empty_context |}.

(** As [plain_world], with the table present and objects that refer to
    RTTI records. *)
Definition chained_world : World :=
  {| pe_sections := [code tobject_section];
     entry_point := 0x401000;
     find_init_table := Some 0x401050;
     construct := chaining_constructor;
     VersionHelper := fun _ => 7%nat;
     context0 := empty_context |}.


(** As [plain_world], with the stream of the section cut short. *)
Definition truncated_world : World :=
  {| pe_sections := [code truncated_section];
     entry_point := 0x401000;
     find_init_table := None;
     construct := in_section_constructor;
     VersionHelper := fun _ => 7%nat;
     context0 := empty_context |}.

(** No code section at all. *)
Definition hollow_world : World :=
  {| pe_sections := [];
     entry_point := 0x401000;
     find_init_table := Some 0x401050;
     construct := in_section_constructor;
     VersionHelper := fun _ => 7%nat;
     context0 := empty_context |}.

(** One small code section without any table, as in an executable that
    was not built by the Delphi compiler. *)
Definition barren_world : World :=
  {| pe_sections := [code stub_section];
     entry_point := 0x400000;
     find_init_table := None;
     construct := in_section_constructor;
     VersionHelper := fun _ => 7%nat;
     context0 := empty_context |}.

(** Two code sections; the entry point and TObject are in the second. *)
Definition split_world : World :=
  {| pe_sections := [code stub_section; code tobject_section];
     entry_point := 0x401010;
     find_init_table := Some 0x401050;
     construct := in_section_constructor;
     VersionHelper := fun _ => 7%nat;
     context0 := empty_context |}.

(** As [split_world], with an entry point outside every code section. *)
Definition stray_world : World :=
  {| pe_sections := [code stub_section; code tobject_section];
     entry_point := 0x500000;
     find_init_table := Some 0x401050;
     construct := in_section_constructor;
     VersionHelper := fun _ => 7%nat;
     context0 := empty_context |}.

(** Two code sections that both hold a base-object pattern. *)
Definition twin_world : World :=
  {| pe_sections := [code tobject_section; code tobject_section2];
     entry_point := 0x401000;
     find_init_table := Some 0x401050;
     construct := in_section_constructor;
     VersionHelper := fun _ => 7%nat;
     context0 := empty_context |}.

(* ================================================================== *)
(** * Properties of the TObject locator *)

(** What [analyse] and its stages must leave alone in a context: the
    section lists once they are set, and the facts [__init__] recorded. *)
Definition frame (c0 c : Context) : Prop :=
  code_sections c = code_sections c0 /\
  data_sections c = data_sections c0 /\
  license c = license c0 /\
  units c = units c0.

(** The sections a trace scanned for TObject, in order. *)
Fixpoint scanned (evs : list Event) : list PESection :=
  match evs with
  | [] => []
  | EvFindTObject s :: rest => s :: scanned rest
  | _ :: rest => scanned rest
  end.

(** Events that [analyse_objects] can emit. *)
Definition is_object_stage (e : Event) : bool :=
  match e with
  | EvLog _ _ | EvFindVftables | EvConstruct _ _ _ _ _ | EvVersion => true
  | _ => false
  end.

(** Constructors that never add follow-up work to the queue. *)
Definition constructors_enqueue_nothing (w : World) : Prop :=
  forall k s loc c q, fst (construct w k s loc c q) = q.

(** The scan of a section finds no table and does not fail. *)
Definition scan_finds_nothing (s : PESection) : Prop :=
  find_tobject s = Ok None.

(** The constructions a trace asked for: pass, kind and address, in
    order. *)
Fixpoint requests (evs : list Event) : list (Pass * ObjKind * Z) :=
  match evs with
  | [] => []
  | EvConstruct p k _ loc _ :: rest => (p, k, loc) :: requests rest
  | _ :: rest => requests rest
  end.

(* ================================================================== *)
(** * Construction of the handler ([__init__]) *)

(** A [pefile.PE] object, as far as the handler looks at it: its section
    table, and its resource directory as [PEHelper.get_resource_data]
    reads it (the data of the resource of a type and a name, if any). *)
Record PEFile : Type := {
  sections : list RawSection;
  get_resource_data : Z -> string -> option (list byte)
}.

(** [pefile.RESOURCE_TYPE["RT_RCDATA"]]. *)
Definition RT_RCDATA : Z := 10.

(** What [__init__] calls and this file does not define. *)
Record Loaders : Type := {
  (** [pefile.PE(filename, fast_load=True)] *)
  load_pe : string -> PEFile + exn;
  (** Modelled from the spec: [LicenseHelper.from_bytes(data)] is not
      in this file; it gives the name of the license, or nothing. *)
  license_from_bytes : list byte -> option string;
  (** Modelled from the spec: [PackageInfoHelper.from_bytes(data)] is
      not in this file; it fills the helper with the unit list, or
      raises. *)
  packageinfo_from_bytes : list byte -> list string + exn
}.

(** The handler under construction: its [_pe] (the fields [_pehelper]
    and [_mapped_data] are computed from it), the context it shares with
    its caller, and what it logged (debug messages apart). *)
Record Handler : Type := {
  _pe : option PEFile;
  context : Context;
  logged : list Event
}.

Definition log (h : Handler) (l : level) (text : string) : Handler :=
  {| _pe := _pe h; context := context h;
     logged := logged h ++ [EvLog l text] |}.

Definition set_license (c : Context) (l : string) : Context :=
  {| code_sections := code_sections c; data_sections := data_sections c;
     header_length := header_length c; object_section := object_section c;
     version := version c; items := items c;
     license := Some l; units := units c |}.

Definition set_units (c : Context) (u : list string) : Context :=
  {| code_sections := code_sections c; data_sections := data_sections c;
     header_length := header_length c; object_section := object_section c;
     version := version c; items := items c;
     license := license c; units := Some u |}.

(** Python truthiness of the bytes of a resource ([None] and [b""] are
    false). *)
Definition truthy_data (data : option (list byte)) : bool :=
  match data with
  | Some (_ :: _) => true
  | _ => false
  end.

(** Python truthiness of a name ([None] and the empty string are
    false). *)
Definition truthy_name (s : option string) : bool :=
  match s with
  | Some EmptyString | None => false
  | Some _ => true
  end.

(** [binascii.hexlify(license)]: the argument must be bytes-like, which
    neither [None] nor a name is. *)
Definition hexlify_license (license : option string) : string + exn :=
  match license with
  | None => inr TypeError
  | Some _ => inr TypeError
  end.

(** [_extract_access_license(pe)]: the state it leaves, and the
    exception that left it, if any. *)
Definition _extract_access_license (L : Loaders) (pe : PEFile) (h : Handler)
  : Handler * option exn :=
  let data := get_resource_data pe RT_RCDATA "DVCLAL" in
  match data with
  | Some (b :: bs) =>
      match license_from_bytes L (b :: bs) with
      | Some (String a r) =>
          let h := log h Info
                     "Found Delphi %s license information in PE resources" in
          ({| _pe := _pe h; context := set_license (context h) (String a r);
              logged := logged h |}, None)
      | license =>
          (* the argument of [logger.warning] is evaluated first *)
          match hexlify_license license with
          | inl _ => (log h Warning "Unknown Delphi license %s", None)
          | inr e => (h, Some e)
          end
      end
  | _ =>
      (log h Warning
         "Did not find DVCLAL license information in PE resources", None)
  end.

(** [_extract_packageinfo(pe)]. *)
Definition _extract_packageinfo (L : Loaders) (pe : PEFile) (h : Handler)
  : Handler * option exn :=
  let data := get_resource_data pe RT_RCDATA "PACKAGEINFO" in
  match data with
  | Some (b :: bs) =>
      match packageinfo_from_bytes L (b :: bs) with
      | inl helper =>
          ({| _pe := _pe h; context := set_units (context h) helper;
              logged := logged h |}, None)
      | inr e => (h, Some e)
      end
  | _ =>
      (log h Warning
         "Did not find PACKAGEINFO DVCLAL license information in PE resources",
       None)
  end.

(** [_from_pefile(pe)]. *)
Definition _from_pefile (L : Loaders) (pe : PEFile) (h : Handler)
  : Handler * option exn :=
  let h := {| _pe := Some pe; context := context h; logged := logged h |} in
  match _extract_access_license L pe h with
  | (h, Some e) => (h, Some e)
  | (h, None) => _extract_packageinfo L pe h
  end.

(** [_from_file(filename)]. *)
Definition _from_file (L : Loaders) (filename : string) (h : Handler)
  : Handler * option exn :=
  match load_pe L filename with
  | inl pe => _from_pefile L pe (log h Info "Loading PE from file {}")
  | inr e => (h, Some e)
  end.

(** [__init__(logger, context, filename=None, pe=None)].  A [pefile.PE]
    object is truthy. *)
Definition __init__ (L : Loaders) (c : Context) (filename : option string)
    (pe : option PEFile) : Handler * option exn :=
  let h := {| _pe := None; context := c; logged := [] |} in
  match filename with
  | Some (String a f) => _from_file L (String a f) h
  | _ =>
      match pe with
      | Some p => _from_pefile L p h
      | None => (h, None)
      end
  end.

(** The [pefile.PE] object that [__init__] works on: the one loaded from
    the file when a file name is given (a non-empty string), otherwise
    the one passed as [pe]. *)
Definition loaded (L : Loaders) (filename : option string)
    (pe : option PEFile) (p : PEFile) : Prop :=
  match filename with
  | Some (String a f) => load_pe L (String a f) = inl p
  | _ => pe = Some p
  end.

(** A resource directory with one RCDATA resource. *)
Definition one_resource (name : string) (data : list byte)
  : Z -> string -> option (list byte) :=
  fun t n => if (t =? RT_RCDATA) && String.eqb n name then Some data else None.

(** An executable whose DVCLAL resource is two bytes that no license
    has. *)
Definition unlicensed_pe : PEFile :=
  {| sections := [code tobject_section];
     get_resource_data := one_resource "DVCLAL" [x00; x01] |}.

(** Helpers that know one license and parse no unit. *)
Definition plain_loaders : Loaders :=
  {| load_pe := fun _ => inl unlicensed_pe;
     license_from_bytes :=
       fun d => match d with
                | [x26; x3d] => Some "Professional"%string
                | _ => None
                end;
     packageinfo_from_bytes := fun _ => inl [] |}.

(** An executable with a known license and a PACKAGEINFO resource. *)
Definition licensed_pe : PEFile :=
  {| sections := [code tobject_section];
     get_resource_data :=
       fun t n => if (t =? RT_RCDATA) && String.eqb n "DVCLAL"
                  then Some [x26; x3d]
                  else if (t =? RT_RCDATA) && String.eqb n "PACKAGEINFO"
                       then Some [x01]
                       else None |}.

(** The context once TObject has been found in [tobject_section]. *)
Definition located_context : Context :=
  set_tobject empty_context 40 tobject_section.

#[local] Arguments Z.ltb : simpl never.
#[local] Arguments Z.leb : simpl never.
#[local] Arguments Z.gtb : simpl never.
#[local] Arguments Z.eqb : simpl never.
#[local] Arguments Z.add : simpl never.
#[local] Arguments Z.sub : simpl never.
#[local] Arguments Z.mul : simpl never.

Section TObjectLocator.

Variable s : PESection.

(** The loop body starts with a [seek]: what it computes does not depend
    on where the cursor was, and it always ends. *)
Lemma tobject_probe_value (j : Z) (c : cursor) :
  match tobject_probe s j c with
  | Ok (v, _) => probe_value s j = Ok v
  | Raise e => probe_value s j = Raise e
  | OutOfFuel => False
  end.
Proof.
  unfold probe_value, value_of, tobject_probe, bind, seek, unpack_III,
    unpack_I, ret; simpl.
  repeat match goal with
         | |- context [match read_u32 ?d ?o with _ => _ end] =>
             destruct (read_u32 d o); simpl; auto
         | |- context [if ?b then _ else _] => destruct b; simpl; auto
         end.
Qed.

Lemma leb_as_ltb (a b : Z) : (a <=? b) = negb (b <? a).
Proof. destruct (Z.leb_spec a b), (Z.ltb_spec b a); simpl; auto; lia. Qed.

(** The loop body breaks exactly where the five checks hold. *)
Lemma probe_value_cases (j : Z) :
  match probe_value s j with
  | Ok (Break d) => accepted_at s j = Some d
  | Ok Continue => accepted_at s j = None
  | Raise e => e = StructError /\ accepted_at s j = None
  | OutOfFuel => False
  end.
Proof.
  unfold probe_value, value_of, tobject_probe, accepted_at, bind, seek,
    unpack_III, unpack_I, ret; simpl.
  destruct (read_u32 (stream_data s) j) as [ptr|]; simpl; auto.
  destruct (read_u32 (stream_data s) (j + 4)) as [c1|]; simpl; auto.
  destruct (read_u32 (stream_data s) (j + 8)) as [c2|]; simpl; auto.
  rewrite Z.gtb_ltb, !leb_as_ltb.
  destruct (c1 =? 0); simpl;
    [|destruct (read_u32 (stream_data s) (j + 32)); auto].
  destruct (c2 =? 0); simpl;
    [|destruct (read_u32 (stream_data s) (j + 32)); auto].
  destruct (contains_va s ptr); simpl;
    [|destruct (read_u32 (stream_data s) (j + 32)); auto].
  destruct (offset_from_va s ptr - j <? 36); simpl;
    [destruct (read_u32 (stream_data s) (j + 32)); auto|].
  destruct (128 <? offset_from_va s ptr - j); simpl;
    [destruct (read_u32 (stream_data s) (j + 32)); auto|].
  destruct (read_u32 (stream_data s) (j + 32)) as [np|]; simpl; auto.
  destruct (contains_va s np); simpl; auto.
  destruct (read_u32 (stream_data s) (offset_from_va s np)) as [nm|];
    simpl; auto.
  destruct (nm =? TOBJECT_NAME); simpl; auto.
Qed.

Lemma aligned_step (i j : Z) :
  i mod 4 = 0 -> j mod 4 = 0 -> i < j -> i + 4 <= j.
Proof.
  intros Hi Hj Hlt.
  apply Z.div_exact in Hi; [|lia].
  apply Z.div_exact in Hj; [|lia].
  lia.
Qed.

Lemma aligned_next (i : Z) : i mod 4 = 0 -> (i + 4) mod 4 = 0.
Proof.
  intros Hi. replace (i + 4) with (i + 1 * 4) by lia.
  rewrite Z.mod_add by lia. exact Hi.
Qed.

(** Invariant of the scan loop from position [i] on, given enough
    turns. *)
Lemma find_tobject_loop_spec (fuel : nat) :
  forall (i : Z) (c : cursor),
    0 <= i -> i mod 4 = 0 ->
    size s - 128 - i <= 4 * Z.of_nat fuel ->
    match find_tobject_loop fuel s i c with
    | Ok (Some (j, d), _) =>
        i <= j /\ scan_position s j /\ probe_value s j = Ok (Break d) /\
        forall j', scan_position s j' -> i <= j' < j ->
                   probe_value s j' = Ok Continue
    | Ok (None, _) =>
        forall j', scan_position s j' -> i <= j' ->
                   probe_value s j' = Ok Continue
    | Raise e =>
        e = StructError /\
        exists j, i <= j /\ scan_position s j /\
                  probe_value s j = Raise StructError /\
                  forall j', scan_position s j' -> i <= j' < j ->
                             probe_value s j' = Ok Continue
    | OutOfFuel => False
    end.
Proof.
  induction fuel as [|fuel IH]; intros i c Hi Hal Hfuel.
  - simpl. destruct (Z.ltb_spec i (size s - 128)); [lia|].
    unfold ret. intros j' [Hj' _] ?. lia.
  - simpl. destruct (Z.ltb_spec i (size s - 128)) as [Hlt|Hge].
    + unfold bind.
      pose proof (tobject_probe_value i c) as Hp.
      pose proof (probe_value_cases i) as Hc.
      destruct (tobject_probe s i c) as [[v c']|e|]; [| |contradiction].
      * destruct v as [|d].
        -- specialize (IH (i + 4) c').
           assert (Hal' : (i + 4) mod 4 = 0) by (apply aligned_next; auto).
           specialize (IH ltac:(lia) Hal' ltac:(lia)).
           assert (Hsplit : forall j', scan_position s j' -> i <= j' ->
                                       j' = i \/ i + 4 <= j').
           { intros j' [_ Hj'al] Hle.
             destruct (Z.eq_dec j' i); [left; auto|right].
             apply aligned_step; auto. lia. }
           destruct (find_tobject_loop fuel s (i + 4) c')
             as [[[[j d]|] c'']|e|]; [| | |contradiction].
           ++ destruct IH as (Hle & Hpos & Hbr & Hbefore).
              repeat split; try lia; try apply Hpos; auto.
              intros j' Hsp Hrange.
              destruct (Hsplit j' Hsp ltac:(lia)) as [->|Hnext]; auto.
              apply Hbefore; auto. lia.
           ++ intros j' Hsp Hle.
              destruct (Hsplit j' Hsp Hle) as [->|Hnext]; auto.
           ++ destruct IH as (He & j & Hle & Hpos & Hfail & Hbefore).
              split; auto. exists j. repeat split; try lia; try apply Hpos; auto.
              intros j' Hsp Hrange.
              destruct (Hsplit j' Hsp ltac:(lia)) as [->|Hnext]; auto.
              apply Hbefore; auto. lia.
        -- unfold ret. repeat split; try lia; auto.
      * rewrite Hp in Hc. destruct Hc as [-> _].
        split; auto. exists i. repeat split; try lia; auto.
    + unfold ret. intros j' [Hj' _] ?. lia.
Qed.

(** A distance the loop confirms is never zero, so the truthiness test
    after the loop always passes. *)
Lemma break_distance_bounds (j d : Z) :
  accepted_at s j = Some d -> 36 <= d <= 128.
Proof.
  unfold accepted_at.
  destruct (read_u32 (stream_data s) j) as [ptr|]; [|discriminate].
  destruct (read_u32 (stream_data s) (j + 4)) as [c1|]; [|discriminate].
  destruct (read_u32 (stream_data s) (j + 8)) as [c2|]; [|discriminate].
  destruct (read_u32 (stream_data s) (j + 32)) as [np|]; [|discriminate].
  simpl.
  match goal with |- (if ?b then _ else _) = _ -> _ => destruct b eqn:Hb end;
    [|discriminate].
  intros [= <-].
  repeat (apply andb_prop in Hb; destruct Hb as [Hb ?]).
  lia.
Qed.

End TObjectLocator.

(** ** Sections too short to hold a table *)

(** C9.  A code section of fewer than 128 bytes is scanned without
    testing any position: the loop condition fails at once, the stream
    cursor and the log of reads are left as they were (no byte is read),
    and the scan returns "no result" instead of raising. *)
Theorem short_section_is_not_scanned (s : PESection) :
  size s < 128 ->
  (forall j, ~ scan_position s j) /\
  (forall c, find_tobject_stream s c = Ok (None, c)) /\
  find_tobject s = Ok None.
Proof.
  intros Hshort.
  assert (Hloop : forall fuel c,
             find_tobject_loop fuel s 0 c = Ok (None, c)).
  { intros fuel c. destruct fuel; simpl;
      destruct (Z.ltb_spec 0 (size s - 128)); try lia; reflexivity. }
  repeat split.
  - intros j [Hj _]. lia.
  - intros c. unfold find_tobject_stream, bind. now rewrite Hloop.
  - unfold find_tobject, value_of, find_tobject_stream, bind.
    now rewrite Hloop.
Qed.

Lemma short_section_is_not_scanned_witness :
  size stub_section < 128 /\
  find_tobject_stream stub_section fresh_cursor = Ok (None, fresh_cursor).
Proof.
  assert (H : size stub_section < 128) by (simpl; lia).
  split; [exact H|].
  exact (proj1 (proj2 (short_section_is_not_scanned stub_section H))
               fresh_cursor).
Defined.

Example find_tobject_on_tobject_section :
  find_tobject tobject_section
  = Ok (Some {| va := 0x401000; vftable_length := 40 |}).
Proof. reflexivity. Qed.

Example find_tobject_on_short_name_section :
  find_tobject short_name_section = Raise StructError.
Proof. reflexivity. Qed.

Example accepted_at_tobject_section :
  accepted_at tobject_section 0 = Some 40 /\
  accepted_at tobject_section 4 = None.
Proof. split; reflexivity. Qed.

(** ** The position the locator returns *)

(** C1, as the code has it.  The scan visits the aligned positions below
    [size - 128] in increasing order.  When it returns a result, that is
    the first accepted position, with [vftable_length] the difference
    there; when it returns nothing, no position is accepted.  It raises
    exactly when, before any accepted position, a read of the loop body
    does not find its bytes; it always ends. *)
Theorem find_tobject_first_accepted (s : PESection) :
  match find_tobject s with
  | Ok (Some r) =>
      exists j, scan_position s j /\
                accepted_at s j = Some (vftable_length r) /\
                va r = va_from_offset s j /\
                forall j', scan_position s j' -> j' < j ->
                           accepted_at s j' = None /\
                           probe_value s j' = Ok Continue
  | Ok None =>
      forall j, scan_position s j ->
                accepted_at s j = None /\ probe_value s j = Ok Continue
  | Raise e =>
      e = StructError /\
      exists j, scan_position s j /\
                probe_value s j = Raise StructError /\
                accepted_at s j = None /\
                forall j', scan_position s j' -> j' < j ->
                           accepted_at s j' = None /\
                           probe_value s j' = Ok Continue
  | OutOfFuel => False
  end.
Proof.
  assert (Hcont : forall j, probe_value s j = Ok Continue ->
                            accepted_at s j = None /\
                            probe_value s j = Ok Continue).
  { intros j Hj. split; auto.
    pose proof (probe_value_cases s j) as Hc. now rewrite Hj in Hc. }
  unfold find_tobject, value_of, find_tobject_stream, bind.
  pose proof (find_tobject_loop_spec s (scan_fuel s) 0 fresh_cursor) as Hl.
  specialize (Hl ltac:(lia) eq_refl).
  assert (Hfuel : size s - 128 - 0 <= 4 * Z.of_nat (scan_fuel s))
    by (unfold scan_fuel; lia).
  specialize (Hl Hfuel).
  destruct (find_tobject_loop (scan_fuel s) s 0 fresh_cursor)
    as [[[[j d]|] c]|e|]; [| | |contradiction].
  - destruct Hl as (_ & Hpos & Hbr & Hbefore).
    pose proof (probe_value_cases s j) as Hc. rewrite Hbr in Hc.
    pose proof (break_distance_bounds s j d Hc) as Hd.
    destruct (Z.eqb_spec d 0); [lia|]. simpl. unfold ret.
    exists j. simpl. repeat split; auto; try apply Hpos.
    + apply Hcont, Hbefore; auto. destruct H as [? _]. lia.
    + apply Hbefore; auto. destruct H as [? _]. lia.
  - unfold ret. intros j Hsp. apply Hcont, Hl; auto.
    destruct Hsp as [? _]. lia.
  - destruct Hl as (He & j & _ & Hpos & Hfail & Hbefore).
    split; auto. exists j.
    pose proof (probe_value_cases s j) as Hc. rewrite Hfail in Hc.
    destruct Hc as [_ Hc].
    repeat split; auto; try apply Hpos.
    + apply Hcont, Hbefore; auto. destruct H as [? _]. lia.
    + apply Hbefore; auto. destruct H as [? _]. lia.
Qed.

(** C1 as the specification states it fails on [short_name_section]: its
    only scanned position passes the first four checks but has a single
    byte at its name pointer, so no position is accepted, and the scan
    raises instead of returning "no result". *)
Lemma locator_claim_fails_on_short_name :
  ~ locator_returns_first_accepted short_name_section.
Proof.
  intros [_ Hnone].
  assert (Hno : forall j, scan_position short_name_section j ->
                          accepted_at short_name_section j = None).
  { intros j [Hj Hal]. simpl in Hj.
    assert (j = 0) as ->.
    { apply Z.div_exact in Hal; lia. }
    vm_compute. reflexivity. }
  specialize (Hnone Hno).
  vm_compute in Hnone. discriminate.
Qed.

(* ================================================================== *)
(** * Properties of the vftable scanner *)

Lemma read_u32_available (data : list byte) (off : Z) :
  0 <= off -> off + 4 <= Z.of_nat (List.length data) ->
  exists v, read_u32 data off = Some v.
Proof.
  intros Hoff Hlen. unfold read_u32.
  destruct (Z.ltb_spec off 0); [lia|].
  pose proof (length_skipn (Z.to_nat off) data) as Hs.
  destruct (skipn (Z.to_nat off) data) as [|b0 [|b1 [|b2 [|b3 rest]]]];
    simpl in Hs; try lia.
  eauto.
Qed.

Lemma offsets_from_In (n : nat) :
  forall a i, In i (offsets_from a n) <->
              exists k, 0 <= k < Z.of_nat n /\ i = a + 4 * k.
Proof.
  induction n as [|n IH]; intros a i; simpl.
  - split; [tauto|]. intros (k & Hk & _). lia.
  - rewrite IH. split.
    + intros [<-|(k & Hk & ->)].
      * exists 0. lia.
      * exists (k + 1). lia.
    + intros (k & Hk & ->).
      destruct (Z.eq_dec k 0) as [->|Hnz].
      * left. lia.
      * right. exists (k - 1). lia.
Qed.

(** The scanner's offsets are the aligned offsets below the bound. *)
Lemma scan_offsets_In (bound i : Z) :
  In i (scan_offsets bound) <-> 0 <= i < bound /\ i mod 4 = 0.
Proof.
  unfold scan_offsets. rewrite offsets_from_In.
  pose proof (Z.div_mod (bound + 3) 4 ltac:(lia)) as Hd.
  pose proof (Z.mod_pos_bound (bound + 3) 4 ltac:(lia)) as Hm.
  split.
  - intros (k & Hk & ->).
    replace (0 + 4 * k) with (0 + k * 4) by lia.
    rewrite Z.mod_add by lia. split; [lia|reflexivity].
  - intros [Hi Hal]. apply Z.div_exact in Hal; [|lia].
    exists (i / 4). lia.
Qed.

Lemma bad_slot (s : PESection) (v : Z) (error : bool) :
  (if negb (v =? 0) && negb (contains_va s v) then true else error)
  = error || negb (slot_ok s v).
Proof.
  unfold slot_ok.
  destruct (v =? 0), (contains_va s v), error; reflexivity.
Qed.

Lemma first_false {A} (f : A -> bool) (l : list A) :
  forallb f l = false ->
  exists pre x post,
    l = pre ++ x :: post /\ forallb f pre = true /\ f x = false.
Proof.
  induction l as [|a l IH]; simpl; [discriminate|].
  destruct (f a) eqn:Ha; simpl.
  - intros Hl. destruct (IH Hl) as (pre & x & post & -> & Hpre & Hx).
    exists (a :: pre), x, post. simpl. rewrite Ha. auto.
  - intros _. exists [], a, l. auto.
Qed.

(** What the loop body does at offset [i]: it returns the candidate test
    when its reads find their bytes, and raises otherwise. *)
Lemma vftable_probe_run (s : PESection) (H i : Z) (c : cursor) :
  if probe_readable s H i
  then exists c', vftable_probe s H i c = Ok (vftable_candidate s H i, c')
  else vftable_probe s H i c = Raise StructError.
Proof.
  unfold probe_readable, vftable_probe, vftable_candidate, bind, seek,
    unpack_I, ret.
  simpl.
  destruct (read_u32 (stream_data s) i) as [p0|]; [|reflexivity].
  destruct (Z.eqb_spec (load_address s + i + H) p0) as [Heq|Hne].
  - replace (p0 =? load_address s + i + H) with true
      by (symmetry; apply Z.eqb_eq; lia).
    replace (i + 4 * 1) with (i + 4) by lia.
    replace (i + 4 * 2) with (i + 8) by lia.
    replace (i + 4 * 3) with (i + 12) by lia.
    replace (i + 4 * 4) with (i + 16) by lia.
    replace (i + 4 * 5) with (i + 20) by lia.
    simpl. unfold bind, unpack_I, ret. simpl.
    destruct (read_u32 (stream_data s) (i + 4)) as [p1|]; [|reflexivity].
    simpl. replace (i + 4 + 4) with (i + 8) by lia.
    destruct (read_u32 (stream_data s) (i + 8)) as [p2|]; [|reflexivity].
    simpl. replace (i + 8 + 4) with (i + 12) by lia.
    destruct (read_u32 (stream_data s) (i + 12)) as [p3|]; [|reflexivity].
    simpl. replace (i + 12 + 4) with (i + 16) by lia.
    destruct (read_u32 (stream_data s) (i + 16)) as [p4|]; [|reflexivity].
    simpl. replace (i + 16 + 4) with (i + 20) by lia.
    destruct (read_u32 (stream_data s) (i + 20)) as [p5|]; [|reflexivity].
    simpl. rewrite !bad_slot. simpl.
    eexists. f_equal. f_equal.
    destruct (slot_ok s p1), (slot_ok s p2), (slot_ok s p3),
      (slot_ok s p4), (slot_ok s p5); reflexivity.
  - replace (p0 =? load_address s + i + H) with false
      by (symmetry; apply Z.eqb_neq; lia).
    simpl. eauto.
Qed.

(** The scan from offset [i]: it goes through the aligned offsets below
    [size - H] in order; when every offset is readable it returns the
    candidates among them, and otherwise it raises at the first offset
    that is not, with the candidates before it in the queue. *)
Lemma find_vftables_loop_run (s : PESection) (H : Z) (n : nat) :
  forall (fuel : nat) (i found : Z) (q : WorkQueue) (c : cursor),
    n = Z.to_nat ((size s - H - i + 3) / 4) ->
    (n <= fuel)%nat ->
    let offs := offsets_from i n in
    (forallb (probe_readable s H) offs = true ->
     let hits := filter (vftable_candidate s H) offs in
     (exists c',
        find_vftables_loop fuel s H i found q c
        = Ok ((found + Z.of_nat (List.length hits),
               q ++ map (vftable_item s) hits), c')) /\
     work_queue_loop fuel s H i q c = q ++ map (vftable_item s) hits) /\
    (forall pre j post,
       offs = pre ++ j :: post ->
       forallb (probe_readable s H) pre = true ->
       probe_readable s H j = false ->
       find_vftables_loop fuel s H i found q c = Raise StructError /\
       work_queue_loop fuel s H i q c
       = q ++ map (vftable_item s) (filter (vftable_candidate s H) pre)).
Proof.
  induction n as [|n IH]; intros fuel i found q c Hn Hfuel offs;
    pose proof (Z.div_mod (size s - H - i + 3) 4 ltac:(lia)) as Hd;
    pose proof (Z.mod_pos_bound (size s - H - i + 3) 4 ltac:(lia)) as Hm.
  - assert (Hout : (i <? size s - H) = false) by (apply Z.ltb_ge; lia).
    subst offs. simpl. split.
    + intros _. split.
      * exists c. destruct fuel; simpl; rewrite Hout; unfold ret;
          now rewrite Z.add_0_r, app_nil_r.
      * destruct fuel; simpl; rewrite Hout; now rewrite app_nil_r.
    + intros pre j post Heq. destruct pre; discriminate.
  - assert (Hin : (i <? size s - H) = true) by (apply Z.ltb_lt; lia).
    destruct fuel as [|fuel]; [lia|].
    assert (Hn' : n = Z.to_nat ((size s - H - (i + 4) + 3) / 4)).
    { replace (size s - H - (i + 4) + 3)
        with (size s - H - i + 3 + (-1) * 4) by lia.
      rewrite Z.div_add by lia. lia. }
    subst offs. simpl. rewrite Hin. unfold bind.
    pose proof (vftable_probe_run s H i c) as Hp.
    destruct (probe_readable s H i) eqn:Hrd.
    + destruct Hp as [c1 Hp]. rewrite Hp. simpl.
      set (q1 := if vftable_candidate s H i
                 then add_item q (load_address s + i) Vftable else q).
      set (f1 := if vftable_candidate s H i then found + 1 else found).
      assert (Hloop : (if vftable_candidate s H i
                       then find_vftables_loop fuel s H (i + 4) (found + 1)
                              (add_item q (load_address s + i) Vftable)
                       else find_vftables_loop fuel s H (i + 4) found q) c1
                      = find_vftables_loop fuel s H (i + 4) f1 q1 c1).
      { subst q1 f1. destruct (vftable_candidate s H i); reflexivity. }
      rewrite Hloop.
      destruct (IH fuel (i + 4) f1 q1 c1 Hn' ltac:(lia)) as [Hok Hfail].
      assert (Hq1 : forall l,
                 q1 ++ map (vftable_item s) l
                 = q ++ map (vftable_item s)
                          (if vftable_candidate s H i then i :: l else l)).
      { intros l. subst q1. destruct (vftable_candidate s H i); auto.
        unfold add_item. rewrite <- app_assoc. reflexivity. }
      split.
      * intros Hall. destruct (Hok Hall) as [[c' Hl] Hw].
        rewrite Hl, Hw, Hq1. split.
        -- exists c'. do 3 f_equal.
           subst f1. destruct (vftable_candidate s H i); simpl List.length; lia.
        -- destruct (vftable_candidate s H i); reflexivity.
      * intros pre j post Heq Hpre Hj.
        destruct pre as [|x pre]; simpl in Heq.
        -- injection Heq as <- _. congruence.
        -- injection Heq as <- Heq. simpl in Hpre. rewrite Hrd in Hpre.
           simpl in Hpre.
           destruct (Hfail pre j post Heq Hpre Hj) as [Hl Hw].
           rewrite Hl, Hw, Hq1. split; auto.
    + rewrite Hp. split; [discriminate|].
      intros pre j post Heq Hpre Hj.
      destruct pre as [|x pre]; simpl in Heq.
      * simpl. now rewrite app_nil_r.
      * injection Heq as <- _. simpl in Hpre. rewrite Hrd in Hpre.
        discriminate.
Qed.

(** The outcome of [_find_vftables] with a section and a length. *)
Lemma find_vftables_outcome (context : Context) (q : WorkQueue)
    (s : PESection) (H : Z) :
  object_section context = Some s ->
  header_length context = Some H ->
  let offs := scan_offsets (size s - H) in
  (forallb (probe_readable s H) offs = true /\
   let hits := filter (vftable_candidate s H) offs in
   find_vftables context q
   = Ok (Z.of_nat (List.length hits), q ++ map (vftable_item s) hits) /\
   work_queue_after_scan context q = q ++ map (vftable_item s) hits)
  \/
  (exists pre i post,
     offs = pre ++ i :: post /\
     forallb (probe_readable s H) pre = true /\
     probe_readable s H i = false /\
     find_vftables context q = Raise StructError /\
     work_queue_after_scan context q
     = q ++ map (vftable_item s) (filter (vftable_candidate s H) pre)).
Proof.
  intros Hsec Hlen offs.
  unfold find_vftables, work_queue_after_scan, find_vftables_in, value_of.
  rewrite Hsec, Hlen.
  set (n := Z.to_nat ((size s - H + 3) / 4)).
  assert (Hfuel : (n <= Z.to_nat (size s - H))%nat).
  { subst n.
    pose proof (Z.div_mod (size s - H + 3) 4 ltac:(lia)).
    pose proof (Z.mod_pos_bound (size s - H + 3) 4 ltac:(lia)).
    lia. }
  assert (Hn : n = Z.to_nat ((size s - H - 0 + 3) / 4))
    by (subst n; now replace (size s - H - 0 + 3) with (size s - H + 3) by lia).
  destruct (find_vftables_loop_run s H n (Z.to_nat (size s - H)) 0 0 q
              fresh_cursor Hn Hfuel) as [Hok Hfail].
  change (offsets_from 0 n) with offs in Hok, Hfail.
  destruct (forallb (probe_readable s H) offs) eqn:Hall.
  - left. split; auto. destruct (Hok eq_refl) as [[c' Hl] Hw].
    rewrite Hl, Hw. auto.
  - right. destruct (first_false _ _ Hall) as (pre & i & post & Heq & Hpre & Hi).
    exists pre, i, post.
    destruct (Hfail pre i post Heq Hpre Hi) as [Hl Hw].
    rewrite Hl, Hw. auto.
Qed.

(** In a section whose stream holds all its bytes, every offset the
    scanner visits with a header length of at least six slots is
    readable. *)
Lemma mapped_in_full_readable (s : PESection) (H : Z) :
  mapped_in_full s -> 24 <= H ->
  forallb (probe_readable s H) (scan_offsets (size s - H)) = true.
Proof.
  intros Hfull Hh. unfold mapped_in_full in Hfull.
  apply forallb_forall. intros i Hi. apply scan_offsets_In in Hi.
  destruct Hi as [Hi _].
  assert (Hrd : forall k, 0 <= k <= 20 ->
                exists v, read_u32 (stream_data s) (i + k) = Some v).
  { intros k Hk. apply read_u32_available; lia. }
  unfold probe_readable.
  destruct (Hrd 0 ltac:(lia)) as [p0 H0]. rewrite Z.add_0_r in H0.
  rewrite H0. destruct (load_address s + i + H =? p0); auto.
  apply forallb_forall. intros k Hk.
  assert (Hk' : 1 <= k <= 5) by (simpl in Hk; lia).
  destruct (Hrd (4 * k) ltac:(lia)) as [v ->]. reflexivity.
Qed.

Lemma vftable_candidate_spec (s : PESection) (H i : Z) :
  vftable_candidate s H i = true <->
  exists ptr,
    read_u32 (stream_data s) i = Some ptr /\
    ptr = load_address s + i + H /\
    forall k, 1 <= k <= 5 ->
      exists v, read_u32 (stream_data s) (i + 4 * k) = Some v
                /\ (v = 0 \/ contains_va s v = true).
Proof.
  unfold vftable_candidate. split.
  - intros Hc.
    destruct (read_u32 (stream_data s) i) as [ptr|]; [|discriminate].
    apply andb_prop in Hc. destruct Hc as [Hptr Hslots].
    exists ptr. repeat split; [now apply Z.eqb_eq|].
    rewrite forallb_forall in Hslots.
    intros k Hk. specialize (Hslots k).
    assert (Hin : In k [1; 2; 3; 4; 5]) by (simpl; lia).
    specialize (Hslots Hin).
    destruct (read_u32 (stream_data s) (i + 4 * k)) as [v|];
      [|discriminate].
    exists v. split; auto. unfold slot_ok in Hslots.
    apply orb_prop in Hslots. destruct Hslots as [Hz|Hin'];
      [left; now apply Z.eqb_eq|right; auto].
  - intros (ptr & Hrd & Hptr & Hslots).
    rewrite Hrd. apply andb_true_intro. split; [now apply Z.eqb_eq|].
    rewrite forallb_forall. intros k Hin.
    assert (Hk : 1 <= k <= 5) by (simpl in Hin; lia).
    destruct (Hslots k Hk) as (v & Hv & Hok). rewrite Hv. unfold slot_ok.
    destruct Hok as [Hz|Hin']; [subst v; reflexivity|].
    rewrite Hin'. apply orb_true_r.
Qed.

Lemma probe_unreadable_spec (s : PESection) (H i : Z) :
  probe_readable s H i = false <->
  read_u32 (stream_data s) i = None \/
  (read_u32 (stream_data s) i = Some (load_address s + i + H) /\
   exists k, 1 <= k <= 5 /\ read_u32 (stream_data s) (i + 4 * k) = None).
Proof.
  unfold probe_readable.
  destruct (read_u32 (stream_data s) i) as [ptr|]; [|split; auto].
  destruct (Z.eqb_spec (load_address s + i + H) ptr) as [<-|Hne].
  - split.
    + intros Hf. right. split; auto.
      destruct (forallb_forall
                  (fun k => match read_u32 (stream_data s) (i + 4 * k) with
                            | Some _ => true
                            | None => false
                            end) [1; 2; 3; 4; 5]) as [_ Hall].
      destruct (first_false _ _ Hf) as (pre & k & post & Heq & _ & Hk).
      exists k. split.
      * assert (Hin : In k [1; 2; 3; 4; 5]) by (rewrite Heq; apply in_elt).
        simpl in Hin. lia.
      * destruct (read_u32 (stream_data s) (i + 4 * k)); [discriminate|auto].
    + intros [Hn|(_ & k & Hk & Hnone)]; [discriminate|].
      destruct (forallb _ [1; 2; 3; 4; 5]) eqn:Hall; auto.
      rewrite forallb_forall in Hall.
      assert (Hin : In k [1; 2; 3; 4; 5]) by (simpl; lia).
      specialize (Hall k Hin). rewrite Hnone in Hall. discriminate.
  - split; [discriminate|].
    intros [Hn|(Hs & _)]; [discriminate|]. congruence.
Qed.

Lemma offsets_from_sorted (n : nat) :
  forall i, StronglySorted Z.lt (offsets_from i n).
Proof.
  induction n as [|n IH]; intros i; simpl; constructor; auto.
  apply Forall_forall. intros x Hx. apply offsets_from_In in Hx.
  destruct Hx as (k & Hk & ->). lia.
Qed.

(** C2.  With the object section [s] and the header length [H],
    [_find_vftables] goes through the aligned offsets [i] below
    [size - H] in increasing order.  If the reads of the loop body find
    their bytes at every such offset, it appends to the queue the item
    ([load_address + i], Vftable) for exactly the offsets that pass the
    candidate test, in scan order, and returns their number; it returns
    only the counter and the queue, so that nothing is constructed.
    Otherwise it raises a read error at the first offset where a read
    comes up short, and the queue keeps the candidates appended before
    that offset.  In a section whose stream holds all its bytes, with a
    header length of at least the six slots read, every offset is
    readable. *)
Theorem find_vftables_enqueues_candidates
    (context : Context) (q : WorkQueue) (s : PESection) (H : Z) :
  object_section context = Some s ->
  header_length context = Some H ->
  let offs := scan_offsets (size s - H) in
  let item := fun i => {| item_type := Vftable;
                          location := load_address s + i |} in
  ((forallb (probe_readable s H) offs = true /\
    let hits := filter (vftable_candidate s H) offs in
    find_vftables context q
    = Ok (Z.of_nat (List.length hits), q ++ map item hits) /\
    work_queue_after_scan context q = q ++ map item hits)
   \/
   (exists pre i post,
      offs = pre ++ i :: post /\
      forallb (probe_readable s H) pre = true /\
      probe_readable s H i = false /\
      find_vftables context q = Raise StructError /\
      work_queue_after_scan context q
      = q ++ map item (filter (vftable_candidate s H) pre))) /\
  (mapped_in_full s -> 24 <= H ->
   forallb (probe_readable s H) offs = true) /\
  (forall i, In i offs <-> 0 <= i < size s - H /\ i mod 4 = 0) /\
  StronglySorted Z.lt offs /\
  (forall i, vftable_candidate s H i = true <->
             exists ptr,
               read_u32 (stream_data s) i = Some ptr /\
               ptr = load_address s + i + H /\
               forall k, 1 <= k <= 5 ->
                 exists v, read_u32 (stream_data s) (i + 4 * k) = Some v
                           /\ (v = 0 \/ contains_va s v = true)) /\
  (forall i, probe_readable s H i = false <->
             read_u32 (stream_data s) i = None \/
             (read_u32 (stream_data s) i = Some (load_address s + i + H) /\
              exists k, 1 <= k <= 5 /\
                        read_u32 (stream_data s) (i + 4 * k) = None)).
Proof.
  intros Hsec Hlen offs item.
  split; [exact (find_vftables_outcome context q s H Hsec Hlen)|].
  split; [apply mapped_in_full_readable|].
  split; [intros i; apply scan_offsets_In|].
  split; [apply offsets_from_sorted|].
  split; [intros i; apply vftable_candidate_spec
         |intros i; apply probe_unreadable_spec].
Qed.

Lemma find_vftables_enqueues_candidates_witness :
  mapped_in_full tobject_section /\ 24 <= 40 /\
  find_vftables located_context []
  = Ok (1, [{| item_type := Vftable; location := 0x401000 |}]).
Proof.
  assert (Hf : mapped_in_full tobject_section)
    by (unfold mapped_in_full; simpl; lia).
  assert (Hh : 24 <= 40) by lia.
  split; [exact Hf|split; [exact Hh|]].
  destruct (find_vftables_enqueues_candidates
              located_context [] tobject_section 40 eq_refl eq_refl)
    as [[(_ & Hok & _)|(pre & i & post & _ & _ & _ & Hr & _)] _].
  - exact Hok.
  - vm_compute in Hr. discriminate.
Defined.

(** C2 as the specification states it fails on a section whose stream
    is shorter than its size: in [truncated_section] the locator finds
    TObject, the scanner is run, and at offset 48 its read comes up
    short.  The scan raises instead of returning a count, and the
    exception leaves [analyse] with the candidate of offset 0 in the
    queue. *)
Lemma scanner_claim_fails_on_short_stream :
  find_tobject truncated_section
  = Ok (Some {| va := 0x401000; vftable_length := 40 |}) /\
  find_vftables (set_tobject empty_context 40 truncated_section) []
  = Raise StructError /\
  status (analyse truncated_world 5) = Raised StructError /\
  wq (analyse truncated_world 5)
  = [{| item_type := Vftable; location := 0x401000 |}] /\
  ~ (forall s, scanner_returns_candidates s).
Proof.
  repeat split; try (vm_compute; reflexivity).
  intros Hall.
  specialize (Hall truncated_section empty_context
                {| va := 0x401000; vftable_length := 40 |} []).
  assert (Hfind : find_tobject truncated_section
                  = Ok (Some {| va := 0x401000; vftable_length := 40 |}))
    by (vm_compute; reflexivity).
  specialize (Hall Hfind).
  vm_compute in Hall. discriminate.
Qed.

(* ================================================================== *)
(** * Which exceptions the scans can raise *)

Lemma ret_short {A} (a : A) : only_short_reads (ret a).
Proof. intros c e. discriminate. Qed.

Lemma seek_short (o : Z) : only_short_reads (seek o).
Proof. intros c e. discriminate. Qed.

Lemma unpack_I_short (d : list byte) : only_short_reads (unpack_I d).
Proof.
  intros c e. unfold unpack_I.
  destruct (read_u32 d (pos c)); [discriminate|]. now intros [= <-].
Qed.

Lemma bind_short {A B} (m : Stream A) (k : A -> Stream B) :
  only_short_reads m -> (forall a, only_short_reads (k a)) ->
  only_short_reads (bind m k).
Proof.
  intros Hm Hk c e. unfold bind.
  destruct (m c) as [[a c']|e'|] eqn:Hmc.
  - apply Hk.
  - intros [= <-]. eapply Hm; eauto.
  - discriminate.
Qed.

Lemma check_headers_short (j : nat) :
  forall s error, only_short_reads (check_headers j s error).
Proof.
  induction j as [|j IH]; intros s error; simpl.
  - apply ret_short.
  - apply bind_short; [apply unpack_I_short|]. intros a. apply IH.
Qed.

Lemma vftable_probe_short (s : PESection) (H i : Z) :
  only_short_reads (vftable_probe s H i).
Proof.
  unfold vftable_probe.
  apply bind_short; [apply seek_short|]. intros _.
  apply bind_short; [apply unpack_I_short|]. intros ptr.
  destruct (load_address s + i + H =? ptr); [|apply ret_short].
  apply bind_short; [apply check_headers_short|]. intros a. apply ret_short.
Qed.

Lemma find_vftables_loop_short (fuel : nat) :
  forall s H i found q,
    only_short_reads (find_vftables_loop fuel s H i found q).
Proof.
  induction fuel as [|fuel IH]; intros s H i found q; simpl;
    destruct (i <? size s - H); try apply ret_short.
  - intros c e. discriminate.
  - apply bind_short; [apply vftable_probe_short|].
    intros hit. destruct hit; apply IH.
Qed.

(** The scanner raises nothing but a short read or the use of an unset
    attribute. *)
Lemma find_vftables_raises (c : Context) (q : WorkQueue) (e : exn) :
  find_vftables c q = Raise e ->
  e = StructError \/ e = TypeError \/ e = AttributeError.
Proof.
  unfold find_vftables, find_vftables_in, value_of.
  destruct (object_section c) as [s|]; [|intros [= <-]; auto].
  destruct (header_length c) as [H|]; [|intros [= <-]; auto].
  destruct (find_vftables_loop (Z.to_nat (size s - H)) s H 0 0 q
              fresh_cursor) as [[a c']|e'|] eqn:Hl; try discriminate.
  intros [= <-]. left. eapply find_vftables_loop_short; eauto.
Qed.

(** ** The cursor a scan starts with is irrelevant *)

Lemma ret_position {A} (a : A) : position_determined (ret a).
Proof. intros c c' Hp. simpl. auto. Qed.

Lemma unpack_I_position (d : list byte) : position_determined (unpack_I d).
Proof.
  intros c c' Hp. unfold unpack_I. rewrite Hp.
  destruct (read_u32 d (pos c')); simpl; auto.
Qed.

Lemma bind_position {A B} (m : Stream A) (k : A -> Stream B) :
  position_determined m -> (forall a, position_determined (k a)) ->
  position_determined (bind m k).
Proof.
  intros Hm Hk c c' Hp. unfold bind. specialize (Hm c c' Hp).
  destruct (m c) as [[a d]|e|], (m c') as [[a' d']|e'|];
    try contradiction; auto.
  destruct Hm as [<- Hd]. now apply Hk.
Qed.

Lemma check_headers_position (j : nat) :
  forall s error, position_determined (check_headers j s error).
Proof.
  induction j as [|j IH]; intros s error; simpl.
  - apply ret_position.
  - apply bind_position; [apply unpack_I_position|]. intros a. apply IH.
Qed.

Lemma position_determined_strip {A} (m : Stream A) (c c' : cursor) :
  position_determined m -> pos c = pos c' -> strip (m c) = strip (m c').
Proof.
  intros Hm Hp. specialize (Hm c c' Hp).
  destruct (m c) as [[a d]|e|], (m c') as [[a' d']|e'|];
    try contradiction; simpl; auto.
  - now destruct Hm as [<- _].
  - now subst.
Qed.

Lemma vftable_probe_cursor_free (s : PESection) (H i : Z) :
  cursor_free (vftable_probe s H i).
Proof.
  intros c c'. unfold vftable_probe.
  set (k := fun _ : unit => bind (unpack_I (stream_data s)) _).
  change (strip (k tt {| pos := i; reads := reads c |})
          = strip (k tt {| pos := i; reads := reads c' |})).
  apply position_determined_strip; [|reflexivity].
  subst k. apply bind_position; [apply unpack_I_position|]. intros ptr.
  destruct (load_address s + i + H =? ptr); [|apply ret_position].
  apply bind_position; [apply check_headers_position|].
  intros a. apply ret_position.
Qed.

Lemma bind_cursor_free {A B} (m : Stream A) (k : A -> Stream B) :
  cursor_free m -> (forall a, cursor_free (k a)) -> cursor_free (bind m k).
Proof.
  intros Hm Hk c c'. unfold bind. specialize (Hm c c').
  destruct (m c) as [[a d]|e|], (m c') as [[a' d']|e'|];
    simpl in Hm; try discriminate; simpl; auto.
  - inversion Hm; subst. apply Hk.
  - inversion Hm; subst. reflexivity.
Qed.

Lemma tobject_probe_cursor_free (s : PESection) (j : Z) :
  cursor_free (tobject_probe s j).
Proof.
  assert (Hv : forall c, strip (tobject_probe s j c) = probe_value s j).
  { intros c. pose proof (tobject_probe_value s j c) as Hp.
    destruct (tobject_probe s j c) as [[v d]|e|]; simpl; auto.
    contradiction. }
  intros c c'. now rewrite !Hv.
Qed.

Lemma find_tobject_loop_cursor_free (fuel : nat) :
  forall s i, cursor_free (find_tobject_loop fuel s i).
Proof.
  induction fuel as [|fuel IH]; intros s i; simpl;
    destruct (i <? size s - 128); try (intros c c'; reflexivity).
  apply bind_cursor_free; [apply tobject_probe_cursor_free|].
  intros v. destruct v; [apply IH|]. intros c c'. reflexivity.
Qed.

Lemma find_vftables_loop_cursor_free (fuel : nat) :
  forall s H i found q, cursor_free (find_vftables_loop fuel s H i found q).
Proof.
  induction fuel as [|fuel IH]; intros s H i found q; simpl;
    destruct (i <? size s - H); try (intros c c'; reflexivity).
  apply bind_cursor_free; [apply vftable_probe_cursor_free|].
  intros hit. destruct hit; apply IH.
Qed.

(** Both scans give the same outcome whatever state an earlier use left
    the stream of the section in. *)
Lemma find_tobject_any_cursor (s : PESection) (c : cursor) :
  strip (find_tobject_stream s c) = find_tobject s.
Proof.
  unfold find_tobject, value_of.
  change (strip (find_tobject_stream s c)
          = strip (find_tobject_stream s fresh_cursor)).
  unfold find_tobject_stream.
  apply bind_cursor_free; [apply find_tobject_loop_cursor_free|].
  intros r d d'. destruct r as [[j cd]|]; [|reflexivity].
  destruct (negb (cd =? 0)); reflexivity.
Qed.

Lemma find_vftables_any_cursor (s : PESection) (H : Z) (q : WorkQueue)
    (c : cursor) :
  strip (find_vftables_loop (Z.to_nat (size s - H)) s H 0 0 q c)
  = find_vftables_in s H q.
Proof.
  unfold find_vftables_in, value_of.
  apply (find_vftables_loop_cursor_free _ s H 0 0 q c fresh_cursor).
Qed.

(** What a scan for TObject can give: a result only in a section of
    more than 128 bytes, with a length between 36 and 128; no exception
    but a short read; and it always ends. *)
Lemma find_tobject_outcomes (s : PESection) :
  match find_tobject s with
  | Ok (Some r) => 128 < size s /\ 36 <= vftable_length r <= 128
  | Ok None => True
  | Raise e => e = StructError
  | OutOfFuel => False
  end.
Proof.
  unfold find_tobject, value_of, find_tobject_stream, bind.
  pose proof (find_tobject_loop_spec s (scan_fuel s) 0 fresh_cursor) as Hl.
  specialize (Hl ltac:(lia) eq_refl).
  assert (Hfuel : size s - 128 - 0 <= 4 * Z.of_nat (scan_fuel s))
    by (unfold scan_fuel; lia).
  specialize (Hl Hfuel).
  destruct (find_tobject_loop (scan_fuel s) s 0 fresh_cursor)
    as [[[[j d]|] c]|e|]; [| | |contradiction].
  - destruct Hl as (_ & [Hpos _] & Hbr & _).
    pose proof (probe_value_cases s j) as Hc. rewrite Hbr in Hc.
    pose proof (break_distance_bounds s j d Hc) as Hd.
    destruct (Z.eqb_spec d 0); [lia|]. simpl. unfold ret. simpl. lia.
  - exact I.
  - apply Hl.
Qed.

Lemma accepts_has_room (s : PESection) :
  accepts s = true -> contains_va s (load_address s) = true.
Proof.
  unfold accepts. pose proof (find_tobject_outcomes s) as Ho.
  destruct (find_tobject s) as [[r|]|e|]; try discriminate.
  intros _. unfold contains_va.
  apply andb_true_intro. split; [apply Z.leb_le|apply Z.ltb_lt]; lia.
Qed.

(* ================================================================== *)
(** * The work queue *)

Lemma get_item_wanted (f : option ObjKind) (q : WorkQueue) :
  forall it q', get_item f q = Some (it, q') -> wanted f it = true.
Proof.
  induction q as [|x q IH]; intros it q'; simpl; [discriminate|].
  destruct (wanted f x) eqn:Hw.
  - now intros [= <- _].
  - destruct (get_item f q) as [[y r]|]; [|discriminate].
    intros [= <- _]. eapply IH; eauto.
Qed.


Lemma get_item_kind_none (k : ObjKind) (q : WorkQueue) :
  get_item (Some k) q = None ->
  Forall (fun it => kind_eqb k (item_type it) = false) q.
Proof.
  induction q as [|x q IH]; simpl; [constructor|].
  destruct (kind_eqb k (item_type x)) eqn:Hk; [discriminate|].
  destruct (get_item (Some k) q) as [[y r]|]; [discriminate|].
  intros _. constructor; auto.
Qed.

(* ================================================================== *)
(** * Lists of events *)

Lemma split_at_unique (x : Event) (l1 l2 : list Event) :
  ~ In x l1 ->
  forall p q, ~ In x p -> l1 ++ x :: l2 = p ++ x :: q -> p = l1 /\ q = l2.
Proof.
  induction l1 as [|a l1 IH]; intros Hl1 p q Hp Heq.
  - destruct p as [|b p]; simpl in *.
    + now inversion Heq.
    + inversion Heq; subst. exfalso. apply Hp. now left.
  - destruct p as [|b p]; simpl in *.
    + inversion Heq; subst. exfalso. apply Hl1. now left.
    + inversion Heq; subst.
      destruct (IH ltac:(tauto) p q ltac:(tauto) H1) as [-> ->]. auto.
Qed.

(** An element with property [P] found in [l1 ++ v :: l2], where neither
    [v] nor [l2] has [P], lies in [l1]. *)
Lemma found_in_prefix (P : Event -> bool) (v : Event) (l2 : list Event) :
  P v = false -> forallb (fun e => negb (P e)) l2 = true ->
  forall l1 p x q,
    l1 ++ v :: l2 = p ++ x :: q -> P x = true ->
    exists m, l1 = p ++ x :: m.
Proof.
  intros Hv Hl2 l1. induction l1 as [|a l1 IH]; intros p x q Heq Hx.
  - simpl in Heq. exfalso.
    assert (Hin : In x (v :: l2)) by (rewrite Heq; apply in_elt).
    destruct Hin as [<-|Hin]; [congruence|].
    rewrite forallb_forall in Hl2. specialize (Hl2 x Hin).
    rewrite Hx in Hl2. discriminate.
  - destruct p as [|b p]; simpl in Heq; inversion Heq; subst.
    + exists l1. reflexivity.
    + destruct (IH p x q H1 Hx) as [m ->]. exists m. reflexivity.
Qed.

(** An element with property [P] found in [l1 ++ v :: l2], where neither
    [l1] nor [v] has [P], lies in [l2]. *)
Lemma found_in_suffix (P : Event -> bool) (v : Event) (l2 : list Event) :
  P v = false ->
  forall l1 p x q,
    forallb (fun e => negb (P e)) l1 = true ->
    l1 ++ v :: l2 = p ++ x :: q -> P x = true ->
    exists m, p = l1 ++ v :: m.
Proof.
  intros Hv l1. induction l1 as [|a l1 IH]; intros p x q Hl1 Heq Hx.
  - destruct p as [|b p]; simpl in Heq; inversion Heq; subst.
    + congruence.
    + exists p. reflexivity.
  - simpl in Hl1. apply andb_prop in Hl1. destruct Hl1 as [Ha Hl1].
    destruct p as [|b p]; simpl in Heq; inversion Heq; subst.
    + rewrite Hx in Ha. discriminate.
    + destruct (IH p x q Hl1 H1 Hx) as [m ->]. exists m. reflexivity.
Qed.

Lemma forallb_app_true {A} (f : A -> bool) (l1 l2 : list A) :
  forallb f l1 = true -> forallb f l2 = true -> forallb f (l1 ++ l2) = true.
Proof. intros H1 H2. rewrite forallb_app, H1, H2. reflexivity. Qed.

Lemma built_app (l1 l2 : list Event) : built (l1 ++ l2) = built l1 ++ built l2.
Proof.
  induction l1 as [|e l1 IH]; simpl; auto.
  destruct e; auto. destruct r; simpl; auto. now rewrite IH.
Qed.

Lemma built_quiet (l : list Event) : quiet l -> built l = [].
Proof.
  unfold quiet. induction l as [|e l IH]; simpl; auto.
  intros H. apply andb_prop in H. destruct H as [He Hl].
  destruct e; simpl in *; auto; discriminate.
Qed.

(* ================================================================== *)
(** * The parsing passes *)

Lemma add_items_fields (l : list RecoveredObject) :
  forall c,
    items (add_items c l) = items c ++ l /\
    code_sections (add_items c l) = code_sections c /\
    data_sections (add_items c l) = data_sections c /\
    header_length (add_items c l) = header_length c /\
    object_section (add_items c l) = object_section c /\
    version (add_items c l) = version c.
Proof.
  induction l as [|o l IH]; intros c; simpl.
  - rewrite app_nil_r. repeat split; reflexivity.
  - destruct (IH (append_item c o)) as (Hi & Hc & Hd & Hh & Ho & Hv).
    unfold add_items in *. simpl.
    rewrite Hi, Hc, Hd, Hh, Ho, Hv. simpl.
    rewrite <- app_assoc. repeat split; reflexivity.
Qed.

Section Passes.

Variable w : World.
Variable p : Pass.
Variable code_section : PESection.

Lemma parse_queue_events (fuel : nat) :
  forall c q,
    Forall (pass_event p code_section)
           (events (parse_queue w p code_section fuel c q)).
Proof.
  induction fuel as [|fuel IH]; intros c q; simpl;
    destruct (get_item (pass_filter p) q) as [[item q1]|] eqn:Hget;
    simpl; try constructor.
  assert (Hev : forall o, pass_event p code_section
            (EvConstruct p (item_type item) code_section (location item) o)).
  { intros o. exists (item_type item), (location item), o. split; auto.
    apply get_item_wanted in Hget. destruct item; exact Hget. }
  destruct (construct w (item_type item) code_section (location item) c q1)
    as [q2 r].
  destruct r as [obj|e]; [|destruct e]; simpl;
    repeat constructor; auto.
Qed.

Lemma parse_queue_ctx (fuel : nat) :
  forall c q,
    ctx (parse_queue w p code_section fuel c q)
    = add_items c (built (events (parse_queue w p code_section fuel c q))).
Proof.
  induction fuel as [|fuel IH]; intros c q; simpl;
    destruct (get_item (pass_filter p) q) as [[item q1]|] eqn:Hget;
    simpl; auto.
  destruct (construct w (item_type item) code_section (location item) c q1)
    as [q2 r].
  destruct r as [obj|e]; [|destruct e]; simpl; auto.
Qed.

(** How a pass can end: with its filter finding nothing more in the
    queue, at the model's bound, or with an exception of a constructor
    that is not a validation error, raised by the last construction. *)
Lemma parse_queue_status (fuel : nat) :
  forall c q,
    let r := parse_queue w p code_section fuel c q in
    match status r with
    | Finished => get_item (pass_filter p) (wq r) = None
    | Unfinished => True
    | Raised e =>
        e <> ValidationError /\
        exists pre k loc,
          events r = pre ++ [EvConstruct p k code_section loc (Failed e)]
    | ReturnedEarly => False
    end.
Proof.
  induction fuel as [|fuel IH]; intros c q; simpl;
    destruct (get_item (pass_filter p) q) as [[item q1]|] eqn:Hget;
    simpl; auto.
  destruct (construct w (item_type item) code_section (location item) c q1)
    as [q2 r].
  assert (Hstep : forall c' q' ev,
            match status (parse_queue w p code_section fuel c' q') with
            | Finished =>
                get_item (pass_filter p)
                         (wq (parse_queue w p code_section fuel c' q')) = None
            | Unfinished => True
            | Raised e =>
                e <> ValidationError /\
                exists pre k loc,
                  ev :: events (parse_queue w p code_section fuel c' q')
                  = pre ++ [EvConstruct p k code_section loc (Failed e)]
            | ReturnedEarly => False
            end).
  { intros c' q' ev. specialize (IH c' q'). simpl in IH.
    destruct (status (parse_queue w p code_section fuel c' q')); auto.
    destruct IH as (Hne & pre & k & loc & ->).
    split; auto. exists (ev :: pre), k, loc. reflexivity. }
  destruct r as [obj|e]; [|destruct e]; simpl;
    try apply Hstep;
    (split; [discriminate|
             exists [], (item_type item), (location item); reflexivity]).
Qed.

End Passes.

(* ================================================================== *)
(** * Base-object discovery over the code sections *)

(** Step 1 ends normally only when at most one section accepts, raises
    "objects in more than one section" only when two do, and emits no
    event of a later stage. *)
Lemma locate_tobject_spec (secs : list PESection) :
  forall found c,
    let r := fst (locate_tobject secs found c) in
    let f := snd (locate_tobject secs found c) in
    let n := tobject_hits secs found in
    forallb (fun e => negb (is_later_stage e)) (events r) = true /\
    quiet (events r) /\
    same_recovery c (ctx r) /\
    (filter accepts secs = [] -> ctx r = c) /\
    match status r with
    | Finished => (n <= 1)%nat /\ f = negb (Nat.eqb n 0)
    | Raised e =>
        (e = StructError /\
         exists s, In s secs /\ find_tobject s = Raise StructError)
        \/ (e = ObjectsInMoreThanOneSection /\ (2 <= n)%nat)
    | _ => False
    end.
Proof.
  unfold quiet, tobject_hits.
  induction secs as [|s rest IH]; intros found c; simpl.
  - repeat split; auto; destruct found; simpl; auto.
  - pose proof (find_tobject_outcomes s) as Ho.
    assert (Hacc : accepts s = match find_tobject s with
                               | Ok (Some _) => true
                               | _ => false
                               end) by reflexivity.
    destruct (find_tobject s) as [[res|]|e|] eqn:Hfind;
      [| | |contradiction]; rewrite !Hacc; clear Hacc.
    + destruct found; simpl.
      * repeat split; auto; try discriminate.
        right. split; auto. lia.
      * specialize (IH true (set_tobject c (vftable_length res) s)).
        destruct (locate_tobject rest true
                    (set_tobject c (vftable_length res) s)) as [r f].
        simpl in *.
        destruct IH as (Hl & Hq & Hs & _ & Hst).
        repeat split; auto; try apply Hs; try discriminate.
        destruct (status r); auto.
        -- destruct Hst as [Hn ->]. split; [lia|].
           destruct (List.length (filter accepts rest)); reflexivity.
        -- destruct Hst as [(-> & s' & Hin & Hr)|[-> Hn]].
           ++ left. split; auto. exists s'. auto.
           ++ right. split; auto. lia.
    + specialize (IH found c).
      destruct (locate_tobject rest found c) as [r f]. simpl in *.
      destruct IH as (Hl & Hq & Hs & Hc & Hst).
      repeat split; auto; try apply Hs.
      destruct (status r); auto.
      destruct Hst as [(-> & s' & Hin & Hr)|[-> Hn]].
      * left. split; auto. exists s'. auto.
      * right. split; auto.
    + subst e. simpl.
      repeat split; auto.
      left. split; auto. exists s. auto.
Qed.

(** When step 1 ends with [found] set, the context holds a section and
    a header length between 36 and 128. *)
Lemma locate_tobject_located (secs : list PESection) :
  forall found c,
    (found = true -> located c) ->
    snd (locate_tobject secs found c) = true ->
    located (ctx (fst (locate_tobject secs found c))).
Proof.
  induction secs as [|s rest IH]; intros found c Hc; simpl; auto.
  pose proof (find_tobject_outcomes s) as Ho.
  destruct (find_tobject s) as [[res|]|e|]; simpl; auto.
  - destruct found; simpl; auto.
    specialize (IH true (set_tobject c (vftable_length res) s)).
    destruct (locate_tobject rest true _). simpl in *.
    apply IH. intros _. exists s, (vftable_length res). simpl.
    repeat split; apply Ho.
  - specialize (IH found c Hc).
    destruct (locate_tobject rest found c). exact IH.
Qed.

Lemma locate_tobject_wq (secs : list PESection) :
  forall found c, wq (fst (locate_tobject secs found c)) = [].
Proof.
  induction secs as [|s rest IH]; intros found c; simpl; auto.
  destruct (find_tobject s) as [[res|]|e|]; simpl; auto.
  - destruct found; simpl; auto.
    specialize (IH true (set_tobject c (vftable_length res) s)).
    destruct (locate_tobject rest true _). exact IH.
  - specialize (IH found c).
    destruct (locate_tobject rest found c). exact IH.
Qed.

(* ================================================================== *)
(** * The shape of a run of [analyse] *)

Lemma after_after (l1 l2 : list Event) (r : Run) :
  after l1 (after l2 r) = after (l1 ++ l2) r.
Proof. unfold after. simpl. now rewrite app_assoc. Qed.

Lemma later_stage_quiet (l : list Event) :
  forallb (fun e => negb (is_later_stage e)) l = true -> quiet l.
Proof.
  unfold quiet. induction l as [|e l IH]; simpl; auto.
  intros H. apply andb_prop in H. destruct H as [He Hl].
  rewrite IH by auto. destruct e; simpl in *; auto; discriminate.
Qed.

Lemma no_accepting_section (l : list PESection) :
  select_code_section l = None -> filter accepts l = [].
Proof.
  unfold select_code_section. induction l as [|s l IH]; simpl; auto.
  destruct (contains_va s (load_address s)) eqn:Hc; [discriminate|].
  intros Hnone. destruct (accepts s) eqn:Ha; auto.
  apply accepts_has_room in Ha. congruence.
Qed.

(** Steps 2 to 5: either the scanner fails, or Pass A runs on the queue
    it filled; the version is inferred and Pass B runs exactly when
    Pass A finished. *)
Lemma analyse_objects_cases (w : World) (cs : PESection) (fuel : nat)
    (c : Context) :
  let r := analyse_objects w cs fuel c in
  (events r = [EvLog Info "Step 2"; EvFindVftables] /\ ctx r = c /\
   (status r = Unfinished \/
    status r = Raised StructError \/ status r = Raised TypeError \/
    status r = Raised AttributeError))
  \/ exists n q,
       find_vftables c [] = Ok (n, q) /\
       let a := parse_queue w PassA cs fuel c q in
       (status a <> Finished /\
        r = after [EvLog Info "Step 2"; EvFindVftables; EvLog Info "Step 3"] a)
       \/ (status a = Finished /\
           r = after ([EvLog Info "Step 2"; EvFindVftables;
                       EvLog Info "Step 3"]
                      ++ events a
                      ++ [EvLog Info "Step 4"; EvVersion; EvLog Info "Step 5"])
                     (parse_queue w PassB cs fuel
                        (set_version (ctx a) (VersionHelper w (ctx a)))
                        (wq a))).
Proof.
  unfold analyse_objects.
  destruct (find_vftables c []) as [[n q]|e|] eqn:Hf.
  - right. exists n, q. split; auto. simpl.
    destruct (status (parse_queue w PassA cs fuel c q)) eqn:Hs.
    + right. split; auto.
    + left. split; [discriminate|]. reflexivity.
    + left. split; [discriminate|]. reflexivity.
    + left. split; [discriminate|]. reflexivity.
  - left. simpl. repeat split.
    apply find_vftables_raises in Hf. destruct Hf as [->|[->| ->]]; auto.
  - left. simpl. auto.
Qed.

(** The run up to base-object discovery: it stops there without any
    event of a later stage, or exactly one code section accepted and
    steps 2 to 5 follow on the selected code section. *)
Lemma analyse_cases (w : World) (fuel : nat) :
  let r := analyse w fuel in
  let n := List.length (accepting_sections w) in
  let c1 := set_sections (context0 w) (find_code_sections w)
                         (find_data_sections w) in
  (forallb (fun e => negb (is_later_stage e)) (events r) = true /\
   same_recovery c1 (ctx r) /\ wq r = [] /\
   ((status r = ReturnedEarly /\ ctx r = c1 /\ n = 0%nat)
    \/ (status r = Raised StructError /\
        exists s, In s (find_code_sections w) /\
                  find_tobject s = Raise StructError)
    \/ (status r = Raised ObjectsInMoreThanOneSection /\ (2 <= n)%nat)))
  \/ (n = 1%nat /\
      exists cs pre c2,
        select_code_section (find_code_sections w) = Some cs /\
        forallb (fun e => negb (is_later_stage e)) pre = true /\
        same_recovery c1 c2 /\
        located c2 /\
        r = after pre (analyse_objects w cs fuel c2)).
Proof.
  unfold analyse, accepting_sections.
  set (c1 := set_sections (context0 w) (find_code_sections w)
                          (find_data_sections w)).
  set (pre0 := EvFindInitTable :: _).
  assert (Hpre0 : forallb (fun e => negb (is_later_stage e)) pre0 = true).
  { subst pre0. destruct (truthy (find_init_table w)); reflexivity. }
  destruct (select_code_section (find_code_sections w)) as [cs|] eqn:Hsel.
  - set (pre1 := EvLog Info "Analysing section" :: _).
    assert (Hpre1 : forallb (fun e => negb (is_later_stage e)) pre1 = true).
    { subst pre1. destruct (find_init_table w) as [t|]; simpl; auto.
      destruct (negb (t =? 0)); reflexivity. }
    change (code_sections c1) with (find_code_sections w).
    pose proof (locate_tobject_spec (find_code_sections w) false c1) as Hl.
    destruct (locate_tobject (find_code_sections w) false c1) as [r f]
      eqn:Hloc.
    simpl in Hl. destruct Hl as (Hlater & _ & Hsame & Hnone & Hst).
    unfold tobject_hits in Hst. rewrite Nat.add_0_r in Hst.
    destruct (status r) eqn:Hs; try contradiction.
    + destruct Hst as [Hn ->].
      destruct (List.length (filter accepts (find_code_sections w)))
        as [|[|m]] eqn:Hlen; try lia;
        cbn [after events status ctx wq negb Nat.eqb].
      * left. rewrite !forallb_app, Hpre0, Hpre1, Hlater. simpl.
        repeat split; try apply Hsame.
        left. repeat split; auto. apply Hnone.
        now apply length_zero_iff_nil.
      * right. split; auto.
        exists cs, (pre0 ++ pre1 ++ events r), (ctx r).
        repeat split; try apply Hsame.
        -- now rewrite !forallb_app, Hpre0, Hpre1, Hlater.
        -- pose proof (locate_tobject_located (find_code_sections w) false c1
                         ltac:(discriminate)) as Hloc'.
           rewrite Hloc in Hloc'. now apply Hloc'.
        -- now rewrite !after_after, <- app_assoc.
    + left. cbn [after events status ctx wq]. rewrite Hs.
      rewrite !forallb_app, Hpre0, Hpre1, Hlater. simpl.
      repeat split; try apply Hsame.
      * pose proof (locate_tobject_wq (find_code_sections w) false c1) as Hw.
        now rewrite Hloc in Hw.
      * destruct Hst as [(-> & s & Hin & Hr)|[-> Hn]].
        -- right. left. split; auto. exists s. auto.
        -- right. right. split; auto.
  - left. cbn [after events status ctx wq].
    rewrite forallb_app, Hpre0. simpl.
    repeat split.
    left. repeat split.
    rewrite (no_accepting_section _ Hsel). reflexivity.
Qed.

(** ** Where the version inference sits in a run *)

Lemma version_runs_app (l1 l2 : list Event) :
  version_runs (l1 ++ l2) = (version_runs l1 + version_runs l2)%nat.
Proof. unfold version_runs. now rewrite filter_app, length_app. Qed.

Lemma quiet_app (l1 l2 : list Event) : quiet l1 -> quiet l2 -> quiet (l1 ++ l2).
Proof. unfold quiet. apply forallb_app_true. Qed.

Lemma quiet_version_runs (l : list Event) : quiet l -> version_runs l = 0%nat.
Proof.
  unfold quiet, version_runs. induction l as [|e l IH]; simpl; auto.
  intros H. apply andb_prop in H. destruct H as [He Hl].
  destruct e; simpl in *; auto; discriminate.
Qed.

Lemma quiet_no_construct (p : Pass) (l : list Event) :
  quiet l -> forallb (fun e => negb (is_construct_in p e)) l = true.
Proof.
  unfold quiet. induction l as [|e l IH]; simpl; auto.
  intros H. apply andb_prop in H. destruct H as [He Hl].
  rewrite IH by auto.
  destruct e; simpl in *; auto; try discriminate.
Qed.

Lemma pass_events_version_runs (p : Pass) (cs : PESection) (l : list Event) :
  Forall (pass_event p cs) l -> version_runs l = 0%nat.
Proof.
  unfold version_runs. induction 1 as [|e l He _ IH]; simpl; auto.
  destruct He as (k & loc & o & -> & _). exact IH.
Qed.

Lemma pass_a_events_not_b (cs : PESection) (l : list Event) :
  Forall (pass_event PassA cs) l ->
  forallb (fun e => negb (is_construct_in PassB e)) l = true.
Proof.
  induction 1 as [|e l He _ IH]; simpl; auto.
  destruct He as (k & loc & o & -> & _). exact IH.
Qed.

Lemma pass_b_events_not_a (cs : PESection) (l : list Event) :
  Forall (pass_event PassB cs) l ->
  forallb (fun e => negb (is_construct_in PassA e)) l = true.
Proof.
  induction 1 as [|e l He _ IH]; simpl; auto.
  destruct He as (k & loc & o & -> & _). exact IH.
Qed.

Lemma version_runs_none (l : list Event) :
  version_runs l = 0%nat -> ~ In EvVersion l.
Proof.
  unfold version_runs. intros Hz Hin.
  assert (Hf : In EvVersion (filter is_version l))
    by (apply filter_In; auto).
  destruct (filter is_version l); [contradiction|discriminate].
Qed.

(** A run either never infers the version, in which case it does not
    finish and Pass B constructs nothing, or it has the shape: a prelude
    without construction, a finished Pass A, the version inference, then
    Pass B on the queue Pass A left. *)
Lemma analyse_version_shape (w : World) (fuel : nat) :
  let r := analyse w fuel in
  (version_runs (events r) = 0%nat /\ status r <> Finished /\
   forallb (fun e => negb (is_construct_in PassB e)) (events r) = true)
  \/ exists cs pre c q,
       select_code_section (find_code_sections w) = Some cs /\
       quiet pre /\
       let a := parse_queue w PassA cs fuel c q in
       let b := parse_queue w PassB cs fuel
                  (set_version (ctx a) (VersionHelper w (ctx a))) (wq a) in
       status a = Finished /\
       events r = (pre ++ events a ++ [EvLog Info "Step 4"])
                  ++ EvVersion :: EvLog Info "Step 5" :: events b /\
       status r = status b /\ ctx r = ctx b /\ wq r = wq b.
Proof.
  intros r. subst r.
  destruct (analyse_cases w fuel)
    as [(Hlater & _ & _ & Hst)|(_ & cs & pre & c2 & Hsel & Hpre & _ & _ & Hr)].
  - left. apply later_stage_quiet in Hlater.
    repeat split.
    + now apply quiet_version_runs.
    + destruct Hst as [[-> _]|[[-> _]|[-> _]]]; discriminate.
    + now apply quiet_no_construct.
  - apply later_stage_quiet in Hpre. rewrite Hr.
    destruct (analyse_objects_cases w cs fuel c2)
      as [(Hev & _ & Hst)|(n & q & _ &
                           [[Hna ->]|[Ha ->]])].
    + left. cbn [after events status]. rewrite Hev.
      repeat split.
      * rewrite version_runs_app, quiet_version_runs by auto. reflexivity.
      * destruct Hst as [->|[->|[->| ->]]]; discriminate.
      * rewrite forallb_app, quiet_no_construct by auto. reflexivity.
    + left. rewrite after_after. cbn [after events status].
      pose proof (parse_queue_events w PassA cs fuel c2 q) as Hevs.
      repeat split; auto.
      * rewrite !version_runs_app, quiet_version_runs by auto.
        now rewrite (pass_events_version_runs _ _ _ Hevs).
      * rewrite !forallb_app, quiet_no_construct by auto.
        now rewrite (pass_a_events_not_b _ _ Hevs).
    + right. exists cs, (pre ++ [EvLog Info "Step 2"; EvFindVftables;
                                 EvLog Info "Step 3"]), c2, q.
      repeat split; auto.
      * apply quiet_app; auto. reflexivity.
      * rewrite after_after. cbn [after events].
        rewrite <- !app_assoc. reflexivity.
Qed.

Lemma no_vftable_left (q : WorkQueue) :
  get_item (Some Vftable) q = None ->
  Forall (fun it => item_type it <> Vftable) q.
Proof.
  intros Hq. apply get_item_kind_none in Hq.
  eapply Forall_impl; [|exact Hq].
  intros it Hk Heq. cbv beta in Hk. rewrite Heq in Hk. discriminate.
Qed.

(** C3, as the code has it.  Version inference runs at most once in a
    run, and exactly once in every run that reaches the end of
    [analyse]; a run stopped earlier may never infer it.  When it runs,
    everything before it is a prelude without construction followed by a
    finished Pass A that left no Vftable item in the queue, no Pass B
    item has been constructed yet, and everything after it is Pass B on
    that queue. *)
Theorem version_inferred_between_passes (w : World) (fuel : nat) :
  let r := analyse w fuel in
  (version_runs (events r) <= 1)%nat /\
  (status r = Finished -> version_runs (events r) = 1%nat) /\
  forall before later,
    events r = before ++ EvVersion :: later ->
    forallb (fun e => negb (is_construct_in PassB e)) before = true /\
    forallb (fun e => negb (is_construct_in PassA e)) later = true /\
    exists cs pre c q,
      let a := parse_queue w PassA cs fuel c q in
      quiet pre /\
      status a = Finished /\
      Forall (fun it => item_type it <> Vftable) (wq a) /\
      before = pre ++ events a ++ [EvLog Info "Step 4"] /\
      later = EvLog Info "Step 5"
              :: events (parse_queue w PassB cs fuel
                           (set_version (ctx a) (VersionHelper w (ctx a)))
                           (wq a)).
Proof.
  intros r. subst r.
  destruct (analyse_version_shape w fuel)
    as [(Hzero & Hnf & _)|(cs & pre & c & q & _ & Hq & Ha & Hev & Hst & _)].
  - repeat split.
    + lia.
    + intros Hf. contradiction.
    + exfalso. apply (version_runs_none _ Hzero). rewrite H. apply in_elt.
    + exfalso. apply (version_runs_none _ Hzero). rewrite H. apply in_elt.
    + exfalso. apply (version_runs_none _ Hzero). rewrite H. apply in_elt.
  - pose proof (parse_queue_events w PassA cs fuel c q) as HevA.
    pose proof (parse_queue_events w PassB cs fuel
                  (set_version (ctx (parse_queue w PassA cs fuel c q))
                     (VersionHelper w (ctx (parse_queue w PassA cs fuel c q))))
                  (wq (parse_queue w PassA cs fuel c q))) as HevB.
    set (a := parse_queue w PassA cs fuel c q) in *.
    set (b := parse_queue w PassB cs fuel _ _) in *.
    assert (Hleft : version_runs (pre ++ events a ++ [EvLog Info "Step 4"])
                    = 0%nat).
    { rewrite !version_runs_app, quiet_version_runs by auto.
      now rewrite (pass_events_version_runs _ _ _ HevA). }
    assert (Hright : version_runs (EvLog Info "Step 5" :: events b) = 0%nat).
    { change (EvLog Info "Step 5" :: events b)
        with ([EvLog Info "Step 5"] ++ events b).
      rewrite version_runs_app.
      now rewrite (pass_events_version_runs _ _ _ HevB). }
    assert (Hone : version_runs (events (analyse w fuel)) = 1%nat).
    { rewrite Hev, version_runs_app, Hleft.
      change (EvVersion :: EvLog Info "Step 5" :: events b)
        with ([EvVersion] ++ EvLog Info "Step 5" :: events b).
      now rewrite version_runs_app, Hright. }
    split; [lia|]. split; [auto|].
    intros before later Hsplit. rewrite Hev in Hsplit.
    assert (Hbefore : ~ In EvVersion before).
    { intros Hin.
      assert (Htwo : (2 <= version_runs (before ++ EvVersion :: later))%nat).
      { rewrite version_runs_app.
        assert (Hb : (1 <= version_runs before)%nat).
        { unfold version_runs.
          assert (Hf : In EvVersion (filter is_version before))
            by (apply filter_In; auto).
          destruct (filter is_version before); [contradiction|simpl; lia]. }
        unfold version_runs in *. simpl. lia. }
      rewrite <- Hsplit, <- Hev in Htwo. lia. }
    destruct (split_at_unique EvVersion _ _ (version_runs_none _ Hleft)
                before later Hbefore Hsplit) as [-> ->].
    split; [|split].
    + rewrite !forallb_app, quiet_no_construct by auto.
      now rewrite (pass_a_events_not_b _ _ HevA).
    + simpl. now apply (pass_b_events_not_a cs).
    + exists cs, pre, c, q. fold a. fold b.
      repeat split; auto.
      apply no_vftable_left.
      pose proof (parse_queue_status w PassA cs fuel c q) as Hs.
      fold a in Hs. simpl in Hs. rewrite Ha in Hs. exact Hs.
Qed.

Lemma version_inferred_between_passes_witness :
  status (analyse plain_world 5) = Finished /\
  version_runs (events (analyse plain_world 5)) = 1%nat.
Proof.
  assert (H : status (analyse plain_world 5) = Finished) by reflexivity.
  split; [exact H|].
  exact (proj1 (proj2 (version_inferred_between_passes plain_world 5)) H).
Defined.

(** C3 as the specification states it fails: in [barren_world] TObject
    is found in no code section, [analyse] returns early and the version
    is never inferred. *)
Lemma version_not_inferred_in_stopped_run :
  ~ (forall w fuel, version_inferred_exactly_once w fuel).
Proof.
  intros H. specialize (H barren_world 5%nat).
  vm_compute in H. discriminate.
Qed.

(** C8, as the code has it.  Pass A constructs its objects before the
    version inferer runs; it is Pass B that never constructs an object
    before the version inferer has run.  The version inferer runs at
    most once per analysis, and exactly once in every analysis that
    reaches the end of [analyse]. *)
Theorem pass_b_waits_for_version (w : World) (fuel : nat) :
  let r := analyse w fuel in
  (forall before k s loc o later,
      events r = before ++ EvConstruct PassB k s loc o :: later ->
      In EvVersion before) /\
  (forall before k s loc o later,
      events r = before ++ EvConstruct PassA k s loc o :: later ->
      ~ In EvVersion before) /\
  (version_runs (events r) <= 1)%nat /\
  (status r = Finished -> version_runs (events r) = 1%nat).
Proof.
  intros r. subst r.
  destruct (analyse_version_shape w fuel)
    as [(Hzero & Hnf & Hnob)|(cs & pre & c & q & _ & Hq & Ha & Hev & Hst & _)].
  - repeat split.
    + intros before k s loc o later Hsplit. exfalso.
      rewrite forallb_forall in Hnob.
      specialize (Hnob (EvConstruct PassB k s loc o)).
      rewrite Hsplit in Hnob. specialize (Hnob (in_elt _ _ _)).
      discriminate.
    + intros before k s loc o later Hsplit Hin.
      apply (version_runs_none _ Hzero). rewrite Hsplit.
      apply in_or_app. now left.
    + lia.
    + intros Hf. contradiction.
  - pose proof (parse_queue_events w PassA cs fuel c q) as HevA.
    pose proof (parse_queue_events w PassB cs fuel
                  (set_version (ctx (parse_queue w PassA cs fuel c q))
                     (VersionHelper w (ctx (parse_queue w PassA cs fuel c q))))
                  (wq (parse_queue w PassA cs fuel c q))) as HevB.
    set (a := parse_queue w PassA cs fuel c q) in *.
    set (b := parse_queue w PassB cs fuel _ _) in *.
    assert (Hleft : version_runs (pre ++ events a ++ [EvLog Info "Step 4"])
                    = 0%nat).
    { rewrite !version_runs_app, quiet_version_runs by auto.
      now rewrite (pass_events_version_runs _ _ _ HevA). }
    assert (Hone : version_runs (events (analyse w fuel)) = 1%nat).
    { rewrite Hev, version_runs_app, Hleft.
      change (EvVersion :: EvLog Info "Step 5" :: events b)
        with ([EvVersion; EvLog Info "Step 5"] ++ events b).
      now rewrite version_runs_app, (pass_events_version_runs _ _ _ HevB). }
    repeat split; [| |lia|auto].
    + intros before k s loc o later Hsplit. rewrite Hev in Hsplit.
      destruct (found_in_suffix (is_construct_in PassB) EvVersion
                  (EvLog Info "Step 5" :: events b) eq_refl
                  (pre ++ events a ++ [EvLog Info "Step 4"])
                  before (EvConstruct PassB k s loc o) later)
        as [m ->]; auto.
      * rewrite !forallb_app, quiet_no_construct by auto.
        now rewrite (pass_a_events_not_b _ _ HevA).
      * apply in_elt.
    + intros before k s loc o later Hsplit Hin. rewrite Hev in Hsplit.
      assert (Hright : forallb (fun e => negb (is_construct_in PassA e))
                               (EvLog Info "Step 5" :: events b) = true)
        by (simpl; now apply (pass_b_events_not_a cs)).
      destruct (found_in_prefix (is_construct_in PassA) EvVersion
                  (EvLog Info "Step 5" :: events b) eq_refl Hright
                  (pre ++ events a ++ [EvLog Info "Step 4"])
                  before (EvConstruct PassA k s loc o) later Hsplit eq_refl)
        as [m Hm].
      apply (version_runs_none _ Hleft). rewrite Hm.
      apply in_or_app. now left.
Qed.

Lemma pass_b_waits_for_version_witness :
  In EvVersion (firstn 13 (events (analyse chained_world 5))).
Proof.
  exact (proj1 (pass_b_waits_for_version chained_world 5)
               (firstn 13 (events (analyse chained_world 5)))
               (Rtti 0) tobject_section 0x401004 (Failed ValidationError)
               (skipn 14 (events (analyse chained_world 5)))
               eq_refl).
Defined.

(** C8 as the specification states it fails: in [plain_world] Pass A
    constructs the Vftable at 0x401000 while the version inferer has not
    run yet. *)
Lemma pass_a_constructs_before_version :
  ~ (forall w fuel, no_pass_a_object_before_version w fuel).
Proof.
  intros H.
  specialize (H plain_world 5%nat
                (firstn 9 (events (analyse plain_world 5)))
                Vftable tobject_section 0x401000
                (Constructed {| obj_kind := Vftable; obj_va := 0x401000;
                                obj_fields := [] |})
                (skipn 10 (events (analyse plain_world 5)))
                eq_refl).
  vm_compute in H.
  repeat (destruct H as [H|H]; [discriminate|]).
  exact H.
Qed.

(* ================================================================== *)
(** * Validation errors *)



(* ================================================================== *)
(** * Which section the constructors are given *)


(* ================================================================== *)
(** * Fatal outcomes of base-object discovery *)

(** C6.  When the number of code sections in which the TObject scan
    accepts is not one, no vftable scan, construction or version
    inference takes place and the run ends by an early return or an
    exception.  With acceptance in two or more sections an exception
    leaves [analyse] (it is "objects in more than one section" unless a
    scan failed on a short read first); with acceptance in none, and no
    scan failing, [analyse] returns early, and the context it leaves is
    the initial one with only the section lists filled in. *)
Theorem tobject_count_decides (w : World) (fuel : nat) :
  let r := analyse w fuel in
  let n := List.length (accepting_sections w) in
  (n <> 1%nat ->
   forallb (fun e => negb (is_later_stage e)) (events r) = true /\
   (status r = ReturnedEarly \/ exists e, status r = Raised e)) /\
  ((2 <= n)%nat ->
   (exists e, status r = Raised e) /\
   (scans_return w -> status r = Raised ObjectsInMoreThanOneSection)) /\
  (n = 0%nat ->
   (scans_return w -> status r = ReturnedEarly) /\
   (status r = ReturnedEarly ->
    ctx r = set_sections (context0 w) (find_code_sections w)
                         (find_data_sections w))).
Proof.
  intros r n. subst r n.
  assert (Hok : scans_return w ->
                forall s, In s (find_code_sections w) ->
                          find_tobject s <> Raise StructError).
  { intros Hall s Hin Hr. destruct (Hall s Hin) as [x Hx]. congruence. }
  destruct (analyse_cases w fuel)
    as [(Hlater & _ & _ & Hst)|(Hone & _)].
  - repeat split.
    + exact Hlater.
    + destruct Hst as [[-> _]|[[-> _]|[-> _]]]; eauto.
    + destruct Hst as [(_ & _ & Hz)|[[-> _]|[-> _]]]; eauto. lia.
    + intros Hall.
      destruct Hst as [(_ & _ & Hz)|[(_ & s & Hin & Hr)|[-> _]]]; auto.
      * lia.
      * exfalso. eapply Hok; eauto.
    + intros Hall.
      destruct Hst as [(-> & _)|[(_ & s & Hin & Hr)|[_ Hn]]]; auto.
      * exfalso. eapply Hok; eauto.
      * lia.
    + intros Hret.
      destruct Hst as [(_ & -> & _)|[[Hs _]|[Hs _]]]; auto;
        rewrite Hs in Hret; discriminate.
  - repeat split; intros; try lia.
Qed.

Lemma scans_return_twin : scans_return twin_world.
Proof.
  intros s Hin. vm_compute in Hin.
  destruct Hin as [<-|[<-|[]]]; eexists; vm_compute; reflexivity.
Defined.

Lemma scans_return_barren : scans_return barren_world.
Proof.
  intros s Hin. vm_compute in Hin.
  destruct Hin as [<-|[]]; eexists; vm_compute; reflexivity.
Defined.

Lemma tobject_count_decides_witness :
  status (analyse twin_world 5) = Raised ObjectsInMoreThanOneSection /\
  status (analyse barren_world 5) = ReturnedEarly.
Proof.
  assert (Htwo : (2 <= List.length (accepting_sections twin_world))%nat)
    by (vm_compute; lia).
  assert (Hzero : List.length (accepting_sections barren_world) = 0%nat)
    by reflexivity.
  split.
  - exact (proj2 (proj1 (proj2 (tobject_count_decides twin_world 5)) Htwo)
                 scans_return_twin).
  - exact (proj1 (proj2 (proj2 (tobject_count_decides barren_world 5)) Hzero)
                 scans_return_barren).
Defined.

(* ================================================================== *)
(** * What [analyse] does not depend on *)

Lemma parse_queue_ext (w w' : World) :
  construct w = construct w' ->
  forall p cs fuel c q,
    parse_queue w p cs fuel c q = parse_queue w' p cs fuel c q.
Proof.
  intros Hc p cs fuel.
  induction fuel as [|fuel IH]; intros c q; simpl; auto.
  destruct (get_item (pass_filter p) q) as [[item q1]|]; auto.
  rewrite Hc.
  destruct (construct w' (item_type item) cs (location item) c q1)
    as [q2 r].
  destruct r as [obj|e]; [|destruct e]; auto; now rewrite IH.
Qed.

Lemma analyse_objects_ext (w w' : World) :
  construct w = construct w' -> VersionHelper w = VersionHelper w' ->
  forall cs fuel c,
    analyse_objects w cs fuel c = analyse_objects w' cs fuel c.
Proof.
  intros Hc Hv cs fuel c. unfold analyse_objects.
  destruct (find_vftables c []) as [[n q]|e|]; auto.
  rewrite !(parse_queue_ext w w' Hc), Hv. reflexivity.
Qed.

(** The part of [analyse] that follows the selection of the code
    section: base-object discovery and steps 2 to 5. *)
Lemma analyse_unfold (w : World) (fuel : nat) :
  analyse w fuel
  = after (EvFindInitTable ::
           if truthy (find_init_table w) then []
           else [EvLog Warning
                   "Unit initialisation table not found, cannot continue"])
      match select_code_section (find_code_sections w) with
      | None =>
          {| status := ReturnedEarly;
             ctx := set_sections (context0 w) (find_code_sections w)
                                 (find_data_sections w);
             wq := [];
             events := [EvLog Error
               "Could not find code section containing the entry point"] |}
      | Some code_section =>
          after (EvLog Info "Analysing section" ::
                 (match find_init_table w with
                  | Some p => if truthy (find_init_table w)
                              then [EvParseInitTable code_section p] else []
                  | None => []
                  end) ++ [EvLog Info "Step 1"])
            (let (r, found) :=
               locate_tobject (find_code_sections w) false
                 (set_sections (context0 w) (find_code_sections w)
                               (find_data_sections w)) in
             match status r with
             | Finished =>
                 if found then
                   after (events r)
                         (analyse_objects w code_section fuel (ctx r))
                 else
                   after (events r)
                     {| status := ReturnedEarly; ctx := ctx r; wq := [];
                        events := [EvLog Error
                          "Did not find TObject in any code section"] |}
             | _ => r
             end)
      end.
Proof. reflexivity. Qed.

(** The declared entry point of the executable has no influence on a
    run: [analyse] never reads it. *)
Lemma analyse_ignores_entry_point (w : World) (e : Z) (fuel : nat) :
  analyse (with_entry_point w e) fuel = analyse w fuel.
Proof.
  rewrite !analyse_unfold.
  change (find_init_table (with_entry_point w e)) with (find_init_table w).
  change (find_code_sections (with_entry_point w e))
    with (find_code_sections w).
  change (find_data_sections (with_entry_point w e))
    with (find_data_sections w).
  change (context0 (with_entry_point w e)) with (context0 w).
  f_equal.
  destruct (select_code_section (find_code_sections w)) as [cs|]; auto.
  f_equal.
  destruct (locate_tobject _ _ _) as [r found].
  destruct (status r); auto. destruct found; auto.
  f_equal. now apply analyse_objects_ext.
Qed.

(** C5 on the code.  In [split_world] the declared entry point lies in
    the second code section, yet the selection loop takes the first: it
    tests [s.contains_va(s.load_address)], which holds for any section
    that is not empty.  In [stray_world] the entry point lies in no code
    section, yet the run is not stopped: it goes through every stage. *)
Theorem code_section_selected_without_entry_point :
  (contains_va stub_section (entry_point split_world) = false /\
   contains_va tobject_section (entry_point split_world) = true /\
   select_code_section (find_code_sections split_world) = Some stub_section)
  /\
  (existsb (fun s => contains_va s (entry_point stray_world))
           (find_code_sections stray_world) = false /\
   status (analyse stray_world 5) = Finished /\
   existsb is_later_stage (events (analyse stray_world 5)) = true).
Proof. repeat split; vm_compute; reflexivity. Qed.

(* ================================================================== *)
(** * A missing unit initialisation table *)

Lemma locate_no_parse (secs : list PESection) :
  forall found c,
    forallb (fun e => negb (is_parse_init_table e))
            (events (fst (locate_tobject secs found c))) = true.
Proof.
  induction secs as [|s rest IH]; intros found c; simpl; auto.
  destruct (find_tobject s) as [[res|]|e|]; simpl; auto.
  - destruct found; simpl; auto.
    specialize (IH true (set_tobject c (vftable_length res) s)).
    destruct (locate_tobject rest true _). exact IH.
  - specialize (IH found c).
    destruct (locate_tobject rest found c). exact IH.
Qed.

Lemma pass_events_no_parse (p : Pass) (cs : PESection) (l : list Event) :
  Forall (pass_event p cs) l ->
  forallb (fun e => negb (is_parse_init_table e)) l = true.
Proof.
  induction 1 as [|e l He _ IH]; simpl; auto.
  destruct He as (k & loc & o & -> & _). exact IH.
Qed.

Lemma analyse_objects_no_parse (w : World) (cs : PESection) (fuel : nat)
    (c : Context) :
  forallb (fun e => negb (is_parse_init_table e))
          (events (analyse_objects w cs fuel c)) = true.
Proof.
  destruct (analyse_objects_cases w cs fuel c)
    as [(Hev & _ & _)|(n & q & _ & [[_ ->]|[_ ->]])].
  - now rewrite Hev.
  - cbn [after events]. rewrite forallb_app. simpl.
    eapply pass_events_no_parse, parse_queue_events.
  - cbn [after events]. rewrite !forallb_app. simpl.
    rewrite (pass_events_no_parse PassA cs _ (parse_queue_events _ _ _ _ _ _)).
    rewrite (pass_events_no_parse PassB cs _ (parse_queue_events _ _ _ _ _ _)).
    reflexivity.
Qed.


(* ================================================================== *)
(** * Runs on the concrete images *)

Example plain_world_run :
  let r := analyse plain_world 5 in
  status r = Finished /\
  header_length (ctx r) = Some 40 /\
  object_section (ctx r) = Some tobject_section /\
  version (ctx r) = Some 7%nat /\
  items (ctx r)
  = [{| obj_kind := Vftable; obj_va := 0x401000; obj_fields := [] |}] /\
  wq r = [].
Proof. repeat split. Qed.

Example chained_world_run :
  let r := analyse chained_world 5 in
  status r = Finished /\
  map obj_kind (items (ctx r)) = [Vftable; Rtti 1] /\
  filter is_version (events r) = [EvVersion].
Proof. repeat split. Qed.

Example twin_world_run :
  let r := analyse twin_world 5 in
  status r = Raised ObjectsInMoreThanOneSection /\
  header_length (ctx r) = Some 40 /\
  filter is_later_stage (events r) = [].
Proof. repeat split. Qed.

(* ================================================================== *)
(** * Further properties: the section lists *)

Lemma land_pow2_is_bit (c n : Z) :
  0 <= n -> (Z.land c (2 ^ n) =? 0) = negb (Z.testbit c n).
Proof.
  intros Hn. destruct (Z.testbit c n) eqn:Hbit; simpl.
  - apply Z.eqb_neq. intros Hz.
    assert (Hb : Z.testbit (Z.land c (2 ^ n)) n = true).
    { rewrite Z.land_spec, Hbit, Z.pow2_bits_eqb, Z.eqb_refl by lia.
      reflexivity. }
    rewrite Hz, Z.bits_0 in Hb. discriminate.
  - apply Z.eqb_eq. apply Z.bits_inj'. intros m Hm.
    rewrite Z.land_spec, Z.bits_0, Z.pow2_bits_eqb by lia.
    destruct (Z.eqb_spec n m) as [<-|Hne].
    + now rewrite Hbit.
    + apply andb_false_r.
Qed.

(** X1.  [_find_code_sections] keeps, in the order of [pe.sections], exactly
    the sections whose characteristics have bit 5 (0x20) set, and
    [_find_data_sections] those with bit 6 (0x40) set, whatever the other
    bits are; a section with both bits is in both lists.  With no flag
    ([flags] zero) [_find_sections] returns nothing. *)
Theorem find_sections_by_flag_bit (w : World) :
  find_code_sections w
  = map mapped (filter (fun r => Z.testbit (Characteristics r) 5)
                       (pe_sections w)) /\
  find_data_sections w
  = map mapped (filter (fun r => Z.testbit (Characteristics r) 6)
                       (pe_sections w)) /\
  find_sections w 0 = [].
Proof.
  unfold find_code_sections, find_data_sections, find_sections,
    IMAGE_SCN_CNT_CODE, IMAGE_SCN_CNT_INITIALIZED_DATA.
  repeat split.
  - f_equal. apply filter_ext. intros r.
    change 0x20 with (2 ^ 5).
    rewrite land_pow2_is_bit by lia. simpl. now rewrite negb_involutive.
  - f_equal. apply filter_ext. intros r.
    change 0x40 with (2 ^ 6).
    rewrite land_pow2_is_bit by lia. simpl. now rewrite negb_involutive.
  - simpl. induction (pe_sections w) as [|r l IH]; simpl; auto.
Qed.

Lemma select_code_section_cases (l : list PESection) :
  match select_code_section l with
  | Some s =>
      exists l1 l2, l = l1 ++ s :: l2 /\ 0 < size s /\
                    Forall (fun x => size x <= 0) l1
  | None => Forall (fun x => size x <= 0) l
  end.
Proof.
  unfold select_code_section.
  induction l as [|x l IH]; simpl; [constructor|].
  unfold contains_va at 1.
  destruct (Z.leb_spec (load_address x) (load_address x)); [|lia].
  destruct (Z.ltb_spec (load_address x) (load_address x + size x)); simpl.
  - exists [], l. repeat split; auto. lia.
  - destruct (find _ l) as [s|].
    + destruct IH as (l1 & l2 & -> & Hs & Hl1).
      exists (x :: l1), l2. repeat split; auto.
      constructor; auto. lia.
    + constructor; auto. lia.
Qed.

(** X2.  The selection loop of [analyse] takes the first code section whose
    size is positive, whatever it contains.  When every code section is
    empty (or there is none) the run returns early: no section is
    scanned, [parse_init_table] is not called even if the table was
    found, and the context has only its section lists set. *)
Theorem code_section_is_first_nonempty (w : World) (fuel : nat) :
  (forall cs, select_code_section (find_code_sections w) = Some cs ->
     exists l1 l2, find_code_sections w = l1 ++ cs :: l2 /\ 0 < size cs /\
                   Forall (fun x => size x <= 0) l1) /\
  (Forall (fun x => size x <= 0) (find_code_sections w) ->
   let r := analyse w fuel in
   status r = ReturnedEarly /\
   ctx r = set_sections (context0 w) (find_code_sections w)
                        (find_data_sections w) /\
   forallb (fun e => negb (is_stage_after_init_table e)
                     && negb (is_parse_init_table e)) (events r) = true).
Proof.
  pose proof (select_code_section_cases (find_code_sections w)) as Hsel.
  split.
  - intros cs Hcs. now rewrite Hcs in Hsel.
  - intros Hall. rewrite analyse_unfold.
    destruct (select_code_section (find_code_sections w)) as [cs|].
    + exfalso. destruct Hsel as (l1 & l2 & Heq & Hpos & _).
      rewrite Forall_forall in Hall.
      specialize (Hall cs). rewrite Heq in Hall.
      specialize (Hall (in_elt _ _ _)). lia.
    + cbn [after status ctx events]. repeat split.
      destruct (truthy (find_init_table w)); reflexivity.
Qed.

Lemma code_section_is_first_nonempty_witness :
  status (analyse hollow_world 5) = ReturnedEarly /\
  exists l1 l2,
    find_code_sections split_world = l1 ++ stub_section :: l2 /\
    0 < size stub_section /\ Forall (fun x => size x <= 0) l1.
Proof.
  split.
  - exact (proj1 (proj2 (code_section_is_first_nonempty hollow_world 5)
                        (Forall_nil _))).
  - exact (proj1 (code_section_is_first_nonempty split_world 5)
                 stub_section eq_refl).
Defined.

(* ================================================================== *)
(** * Further properties: the TObject locator *)

Lemma find_tobject_result (s : PESection) (r : TObjectResult) :
  find_tobject s = Ok (Some r) ->
  exists j, scan_position s j /\
            accepted_at s j = Some (vftable_length r) /\
            va r = va_from_offset s j.
Proof.
  unfold find_tobject, value_of, find_tobject_stream, bind.
  pose proof (find_tobject_loop_spec s (scan_fuel s) 0 fresh_cursor) as Hl.
  specialize (Hl ltac:(lia) eq_refl).
  assert (Hfuel : size s - 128 - 0 <= 4 * Z.of_nat (scan_fuel s))
    by (unfold scan_fuel; lia).
  specialize (Hl Hfuel).
  destruct (find_tobject_loop (scan_fuel s) s 0 fresh_cursor)
    as [[[[j d]|] c]|e|]; try discriminate.
  destruct Hl as (_ & Hpos & Hbr & _).
  pose proof (probe_value_cases s j) as Hc. rewrite Hbr in Hc.
  destruct (negb (d =? 0)); unfold ret; [|discriminate].
  intros [= <-]. exists j. simpl. auto.
Qed.

Lemma find_tobject_raise (s : PESection) (e : exn) :
  find_tobject s = Raise e ->
  e = StructError /\
  exists j, scan_position s j /\ probe_value s j = Raise StructError.
Proof.
  unfold find_tobject, value_of, find_tobject_stream, bind.
  pose proof (find_tobject_loop_spec s (scan_fuel s) 0 fresh_cursor) as Hl.
  specialize (Hl ltac:(lia) eq_refl).
  assert (Hfuel : size s - 128 - 0 <= 4 * Z.of_nat (scan_fuel s))
    by (unfold scan_fuel; lia).
  specialize (Hl Hfuel).
  destruct (find_tobject_loop (scan_fuel s) s 0 fresh_cursor)
    as [[[[j d]|] c]|e'|]; try discriminate.
  - destruct (negb (d =? 0)); discriminate.
  - intros [= <-]. destruct Hl as (-> & j & _ & Hpos & Hfail & _).
    split; auto. exists j. auto.
Qed.

(** What acceptance at [j] says about the bytes of the section. *)
Lemma accepted_at_fields (s : PESection) (j d : Z) :
  accepted_at s j = Some d ->
  exists ptr name_ptr,
    read_u32 (stream_data s) j = Some ptr /\
    read_u32 (stream_data s) (j + 4) = Some 0 /\
    read_u32 (stream_data s) (j + 8) = Some 0 /\
    contains_va s ptr = true /\
    d = offset_from_va s ptr - j /\ 36 <= d <= 128 /\
    read_u32 (stream_data s) (j + 32) = Some name_ptr /\
    contains_va s name_ptr = true /\
    read_u32 (stream_data s) (offset_from_va s name_ptr)
    = Some TOBJECT_NAME.
Proof.
  unfold accepted_at.
  destruct (read_u32 (stream_data s) j) as [ptr|]; [|discriminate].
  destruct (read_u32 (stream_data s) (j + 4)) as [c1|]; [|discriminate].
  destruct (read_u32 (stream_data s) (j + 8)) as [c2|]; [|discriminate].
  destruct (read_u32 (stream_data s) (j + 32)) as [np|]; [|discriminate].
  cbv zeta.
  match goal with |- (if ?b then _ else _) = _ -> _ => destruct b eqn:Hb end;
    [|discriminate].
  intros [= <-].
  repeat (apply andb_prop in Hb; destruct Hb as [Hb ?]).
  destruct (read_u32 (stream_data s) (offset_from_va s np)) as [nm|] eqn:Hnm;
    [|discriminate].
  exists ptr, np.
  assert (c1 = 0) as -> by lia. assert (c2 = 0) as -> by lia.
  assert (nm = TOBJECT_NAME) as -> by lia.
  repeat split; auto; lia.
Qed.

(** An address at an aligned offset is aligned as the load address is. *)
Lemma same_offset_alignment (j base : Z) :
  j mod 4 = 0 -> (j + base) mod 4 = base mod 4.
Proof.
  intros Hal. apply Z.div_exact in Hal; [|lia].
  rewrite Hal. replace (4 * (j / 4) + base) with (base + (j / 4) * 4) by lia.
  now rewrite Z.mod_add by lia.
Qed.

(** X3.  A table the locator returns lies in the section it was found in:
    its offset from the load address of the section is a multiple of 4
    and lies more than 128 bytes before the end (the address itself is
    aligned as the load address is), its length is between 36 and 128,
    and its first field is the self pointer, the address
    [va + vftable_length], which is in the section too. *)
Theorem tobject_result_in_section (s : PESection) (r : TObjectResult) :
  find_tobject s = Ok (Some r) ->
  36 <= vftable_length r <= 128 /\
  load_address s <= va r < load_address s + size s - 128 /\
  (va r - load_address s) mod 4 = 0 /\
  contains_va s (va r) = true /\
  contains_va s (va r + vftable_length r) = true /\
  read_u32 (stream_data s) (offset_from_va s (va r))
  = Some (va r + vftable_length r) /\
  va r mod 4 = load_address s mod 4.
Proof.
  intros Hr.
  destruct (find_tobject_result s r Hr) as (j & [Hj Hal] & Hacc & Hva).
  destruct (accepted_at_fields s j _ Hacc)
    as (ptr & np & Hptr & _ & _ & Hin & Hd & Hb & _).
  unfold va_from_offset in Hva. unfold offset_from_va in *.
  assert (Hself : va r + vftable_length r = ptr) by lia.
  rewrite Hself, Hva.
  replace (j + load_address s - load_address s) with j by lia.
  repeat split; auto; try lia.
  - unfold contains_va. apply andb_true_intro.
    split; [apply Z.leb_le|apply Z.ltb_lt]; lia.
  - now apply same_offset_alignment.
Qed.

Lemma tobject_result_in_section_witness :
  contains_va tobject_section 0x401000 = true /\
  contains_va tobject_section (0x401000 + 40) = true.
Proof.
  pose proof (tobject_result_in_section tobject_section
                {| va := 0x401000; vftable_length := 40 |} eq_refl) as H.
  split; [exact (proj1 (proj2 (proj2 (proj2 H))))
         |exact (proj1 (proj2 (proj2 (proj2 (proj2 H)))))].
Defined.

Lemma read_u32_unavailable (data : list byte) (off : Z) :
  read_u32 data off = None ->
  off < 0 \/ Z.of_nat (List.length data) < off + 4.
Proof.
  intros Hnone.
  destruct (Z_lt_ge_dec off 0) as [|Hge]; [now left|right].
  destruct (Z_lt_ge_dec (Z.of_nat (List.length data)) (off + 4)); auto.
  destruct (read_u32_available data off ltac:(lia) ltac:(lia)) as [v Hv].
  congruence.
Qed.

(** X4.  In a section whose stream holds all its bytes, the header reads of
    the locator always find their bytes: the scan can fail only on the
    name, at a position that passes the first four checks and whose name
    pointer leads into the last three bytes of the section. *)
Theorem locator_fails_only_at_name (s : PESection) (e : exn) :
  mapped_in_full s ->
  find_tobject s = Raise e ->
  e = StructError /\
  exists j ptr name_ptr,
    scan_position s j /\
    read_u32 (stream_data s) j = Some ptr /\
    read_u32 (stream_data s) (j + 4) = Some 0 /\
    read_u32 (stream_data s) (j + 8) = Some 0 /\
    contains_va s ptr = true /\
    36 <= offset_from_va s ptr - j <= 128 /\
    read_u32 (stream_data s) (j + 32) = Some name_ptr /\
    contains_va s name_ptr = true /\
    size s - 4 < offset_from_va s name_ptr < size s.
Proof.
  intros Hfull Hraise. unfold mapped_in_full in Hfull.
  destruct (find_tobject_raise s e Hraise) as (-> & j & Hpos & Hfail).
  split; auto. exists j.
  destruct Hpos as [Hj Hal].
  assert (Hrd : forall k, 0 <= k <= 32 ->
                exists v, read_u32 (stream_data s) (j + k) = Some v).
  { intros k Hk. apply read_u32_available; lia. }
  destruct (Hrd 0 ltac:(lia)) as [ptr H0]. rewrite Z.add_0_r in H0.
  destruct (Hrd 4 ltac:(lia)) as [c1 H1].
  destruct (Hrd 8 ltac:(lia)) as [c2 H2].
  destruct (Hrd 32 ltac:(lia)) as [np H32].
  revert Hfail.
  unfold probe_value, value_of, tobject_probe, bind, seek, unpack_III,
    unpack_I, ret. simpl.
  rewrite H0, H1, H2. simpl.
  destruct (Z.eqb_spec c1 0) as [->|]; simpl; [|discriminate].
  destruct (Z.eqb_spec c2 0) as [->|]; simpl; [|discriminate].
  destruct (contains_va s ptr) eqn:Hin; simpl; [|discriminate].
  rewrite Z.gtb_ltb.
  destruct (Z.ltb_spec (offset_from_va s ptr - j) 36); simpl;
    [discriminate|].
  destruct (Z.ltb_spec 128 (offset_from_va s ptr - j)); simpl;
    [discriminate|].
  rewrite H32. simpl.
  destruct (contains_va s np) eqn:Hnp; simpl; [|discriminate].
  destruct (read_u32 (stream_data s) (offset_from_va s np)) as [nm|] eqn:Hnm;
    simpl; [destruct (nm =? TOBJECT_NAME); discriminate|].
  intros _. exists ptr, np.
  repeat split; auto; try lia.
  - apply read_u32_unavailable in Hnm.
    unfold contains_va in Hnp. apply andb_prop in Hnp.
    unfold offset_from_va in *. lia.
  - unfold contains_va in Hnp. apply andb_prop in Hnp.
    unfold offset_from_va. lia.
Qed.

Lemma locator_fails_only_at_name_witness :
  mapped_in_full short_name_section /\
  exists j ptr name_ptr,
    scan_position short_name_section j /\
    read_u32 (stream_data short_name_section) j = Some ptr /\
    read_u32 (stream_data short_name_section) (j + 4) = Some 0 /\
    read_u32 (stream_data short_name_section) (j + 8) = Some 0 /\
    contains_va short_name_section ptr = true /\
    36 <= offset_from_va short_name_section ptr - j <= 128 /\
    read_u32 (stream_data short_name_section) (j + 32) = Some name_ptr /\
    contains_va short_name_section name_ptr = true /\
    size short_name_section - 4
    < offset_from_va short_name_section name_ptr
    < size short_name_section.
Proof.
  assert (Hf : mapped_in_full short_name_section)
    by (unfold mapped_in_full; simpl; lia).
  split; [exact Hf|].
  exact (proj2 (locator_fails_only_at_name short_name_section StructError
                  Hf eq_refl)).
Defined.

Lemma vftable_item_In (s : PESection) (i : Z) (l : list Z) :
  In (vftable_item s i) (map (vftable_item s) l) <-> In i l.
Proof.
  rewrite in_map_iff. split.
  - intros (x & Heq & Hin). unfold vftable_item in Heq.
    injection Heq as Heq. assert (x = i) by lia. now subst x.
  - intros Hin. exists i. auto.
Qed.

(** X5.  Whenever [_find_vftables], run with the section and the header
    length that the locator returned, returns, the items it added hold
    the address of TObject exactly when the header slots 3 to 5 of
    TObject are null or point into the section.  In a section whose
    stream holds all its bytes the scanner does return. *)
Theorem tobject_is_a_vftable_candidate
    (context : Context) (s : PESection) (r : TObjectResult)
    (q : WorkQueue) :
  find_tobject s = Ok (Some r) ->
  object_section context = Some s ->
  header_length context = Some (vftable_length r) ->
  let i := offset_from_va s (va r) in
  (mapped_in_full s ->
   exists n q', find_vftables context q = Ok (n, q')) /\
  (forall n q',
     find_vftables context q = Ok (n, q') ->
     exists new,
       q' = q ++ new /\
       (In {| item_type := Vftable; location := va r |} new <->
        forallb (fun k => match read_u32 (stream_data s) (i + 4 * k) with
                          | Some v => slot_ok s v
                          | None => false
                          end) [3; 4; 5] = true)).
Proof.
  intros Hr Hsec Hlen i.
  set (H := vftable_length r) in *.
  destruct (find_tobject_result s r Hr) as (j & [Hj Hal] & Hacc & Hva).
  destruct (accepted_at_fields s j _ Hacc)
    as (ptr & np & Hptr & Hc1 & Hc2 & Hin & Hd & Hb & _).
  assert (Hi : i = j).
  { subst i. rewrite Hva. unfold offset_from_va, va_from_offset. lia. }
  assert (Hself : ptr = load_address s + j + H).
  { subst H. unfold offset_from_va in Hd. lia. }
  assert (Hscan : In j (scan_offsets (size s - H))).
  { apply scan_offsets_In. subst H. split; [lia|exact Hal]. }
  assert (Hcand : vftable_candidate s H j
                  = forallb (fun k =>
                       match read_u32 (stream_data s) (j + 4 * k) with
                       | Some v => slot_ok s v
                       | None => false
                       end) [3; 4; 5]).
  { unfold vftable_candidate. rewrite Hptr.
    replace (ptr =? load_address s + j + H) with true
      by (symmetry; apply Z.eqb_eq; exact Hself).
    cbn [forallb andb].
    replace (j + 4 * 1) with (j + 4) by lia.
    replace (j + 4 * 2) with (j + 8) by lia.
    rewrite Hc1, Hc2. reflexivity. }
  assert (Hitem : {| item_type := Vftable; location := va r |}
                  = vftable_item s j).
  { unfold vftable_item. rewrite Hva. unfold va_from_offset.
    f_equal. lia. }
  pose proof (find_vftables_outcome context q s H Hsec Hlen) as Hout.
  split.
  - intros Hfull.
    pose proof (mapped_in_full_readable s H Hfull ltac:(subst H; lia))
      as Hall.
    destruct Hout as [(_ & Hok & _)|(pre & x & post & Heq & Hpre & Hx & _)].
    + eauto.
    + exfalso. rewrite forallb_forall in Hall.
      assert (Hxin : In x (scan_offsets (size s - H)))
        by (rewrite Heq; apply in_elt).
      rewrite (Hall x Hxin) in Hx. discriminate.
  - intros n q' Hret.
    destruct Hout as [(_ & Hok & _)|(pre & x & post & _ & _ & _ & Hraise & _)];
      [|congruence].
    rewrite Hok in Hret. injection Hret as _ <-.
    eexists. split; [reflexivity|].
    rewrite Hitem, vftable_item_In, filter_In, Hi, <- Hcand. tauto.
Qed.

Lemma tobject_is_a_vftable_candidate_witness :
  mapped_in_full tobject_section /\
  (exists n q', find_vftables located_context [] = Ok (n, q')) /\
  exists new,
    [{| item_type := Vftable; location := 0x401000 |}] = [] ++ new /\
    (In {| item_type := Vftable; location := 0x401000 |} new <->
     forallb (fun k =>
                match read_u32 (stream_data tobject_section)
                        (offset_from_va tobject_section 0x401000 + 4 * k)
                with
                | Some v => slot_ok tobject_section v
                | None => false
                end) [3; 4; 5] = true).
Proof.
  assert (Hf : mapped_in_full tobject_section)
    by (unfold mapped_in_full; simpl; lia).
  pose proof (tobject_is_a_vftable_candidate
                located_context tobject_section
                {| va := 0x401000; vftable_length := 40 |} []
                eq_refl eq_refl eq_refl) as [Hret Hiff].
  split; [exact Hf|]. split; [exact (Hret Hf)|].
  exact (Hiff 1 [{| item_type := Vftable; location := 0x401000 |}] eq_refl).
Defined.

(** X6.  Both scans position the stream before they read: their outcome is
    the same whatever cursor an earlier use of the section's stream left
    behind, so the order in which sections are scanned, and scanning a
    section twice, cannot change a result. *)
Theorem scans_ignore_stream_position (s : PESection) (H : Z) (q : WorkQueue)
    (c : cursor) :
  strip (find_tobject_stream s c) = find_tobject s /\
  strip (find_vftables_loop (Z.to_nat (size s - H)) s H 0 0 q c)
  = find_vftables_in s H q.
Proof.
  split; [apply find_tobject_any_cursor|apply find_vftables_any_cursor].
Qed.

(* ================================================================== *)
(** * Further properties: the vftable scanner *)

(** When the loop body returns, it returns the candidate test. *)
Lemma vftable_probe_ok (s : PESection) (H i : Z) (c c' : cursor) (b : bool) :
  vftable_probe s H i c = Ok (b, c') -> b = vftable_candidate s H i.
Proof.
  unfold vftable_probe, vftable_candidate, bind, seek, unpack_I, ret.
  simpl.
  destruct (read_u32 (stream_data s) i) as [p0|]; [|discriminate].
  destruct (Z.eqb_spec (load_address s + i + H) p0) as [Heq|Hne].
  - replace (p0 =? load_address s + i + H) with true
      by (symmetry; apply Z.eqb_eq; lia).
    replace (i + 4 * 1) with (i + 4) by lia.
    replace (i + 4 * 2) with (i + 8) by lia.
    replace (i + 4 * 3) with (i + 12) by lia.
    replace (i + 4 * 4) with (i + 16) by lia.
    replace (i + 4 * 5) with (i + 20) by lia.
    simpl. unfold bind, unpack_I, ret. simpl.
    destruct (read_u32 (stream_data s) (i + 4)) as [p1|]; [|discriminate].
    simpl. replace (i + 4 + 4) with (i + 8) by lia.
    destruct (read_u32 (stream_data s) (i + 8)) as [p2|]; [|discriminate].
    simpl. replace (i + 8 + 4) with (i + 12) by lia.
    destruct (read_u32 (stream_data s) (i + 12)) as [p3|]; [|discriminate].
    simpl. replace (i + 12 + 4) with (i + 16) by lia.
    destruct (read_u32 (stream_data s) (i + 16)) as [p4|]; [|discriminate].
    simpl. replace (i + 16 + 4) with (i + 20) by lia.
    destruct (read_u32 (stream_data s) (i + 20)) as [p5|]; [|discriminate].
    simpl. rewrite !bad_slot. simpl. intros [= <- _].
    destruct (slot_ok s p1), (slot_ok s p2), (slot_ok s p3),
      (slot_ok s p4), (slot_ok s p5); reflexivity.
  - replace (p0 =? load_address s + i + H) with false
      by (symmetry; apply Z.eqb_neq; lia).
    simpl. now intros [= <- _].
Qed.

Lemma find_vftables_loop_adds (fuel : nat) :
  forall s H i found q c n q' c',
    find_vftables_loop fuel s H i found q c = Ok ((n, q'), c') ->
    exists hits,
      q' = q ++ map (vftable_item s) hits /\
      n = found + Z.of_nat (List.length hits) /\
      (List.length hits <= fuel)%nat /\
      Forall (fun x => i <= x < size s - H /\ (x - i) mod 4 = 0 /\
                       vftable_candidate s H x = true) hits /\
      StronglySorted Z.lt hits.
Proof.
  induction fuel as [|fuel IH]; intros s H i found q c n q' c'; simpl;
    destruct (Z.ltb_spec i (size s - H)) as [Hlt|Hge];
    try discriminate;
    try (unfold ret; intros [= <- <- _]; exists [];
         rewrite app_nil_r, Z.add_0_r; repeat split; auto;
         first [simpl; lia|constructor]).
  unfold bind.
  destruct (vftable_probe s H i c) as [[hit c1]|e|] eqn:Hp; try discriminate.
  apply vftable_probe_ok in Hp.
  assert (Hweak : forall hits,
            Forall (fun x => i + 4 <= x < size s - H /\
                             (x - (i + 4)) mod 4 = 0 /\
                             vftable_candidate s H x = true) hits ->
            Forall (fun x => i <= x < size s - H /\ (x - i) mod 4 = 0 /\
                             vftable_candidate s H x = true) hits).
  { intros hits Hall. eapply Forall_impl; [|exact Hall].
    intros x (Hx & Hm & Hc). repeat split; auto; try lia.
    replace (x - i) with (x - (i + 4) + 1 * 4) by lia.
    now rewrite Z.mod_add by lia. }
  destruct hit; intros Hloop; apply IH in Hloop;
    destruct Hloop as (hits & -> & -> & Hlen & Hall & Hsorted).
  - exists (i :: hits). unfold add_item. simpl.
    rewrite <- app_assoc. repeat split; auto; try lia.
    + constructor; auto. repeat split; auto; try lia.
      now rewrite Z.sub_diag.
    + constructor; auto.
      eapply Forall_impl; [|exact Hall]. intros x (Hx & _). simpl. lia.
  - exists hits. repeat split; auto.
Qed.

(** X7.  Whenever [_find_vftables] returns, the queue it was given is a
    prefix of the queue it leaves; the items it added are all of kind
    Vftable, at strictly increasing addresses of the object section
    that leave room for the header, each at an offset from the load
    address that is a multiple of 4 (so aligned as the load address is)
    and each passing the candidate test; and the number returned is the
    number of items added. *)
Theorem find_vftables_appends_increasing
    (context : Context) (q q' : WorkQueue) (n : Z) :
  find_vftables context q = Ok (n, q') ->
  exists s H new,
    object_section context = Some s /\ header_length context = Some H /\
    q' = q ++ new /\ n = Z.of_nat (List.length new) /\
    Forall (fun it =>
              item_type it = Vftable /\
              load_address s <= location it < load_address s + size s - H /\
              (location it - load_address s) mod 4 = 0 /\
              location it mod 4 = load_address s mod 4 /\
              vftable_candidate s H (location it - load_address s) = true)
           new /\
    StronglySorted (fun a b => location a < location b) new.
Proof.
  unfold find_vftables, find_vftables_in, value_of.
  destruct (object_section context) as [s|]; [|discriminate].
  destruct (header_length context) as [H|]; [|discriminate].
  destruct (find_vftables_loop (Z.to_nat (size s - H)) s H 0 0 q fresh_cursor)
    as [[[n0 q0] c']|e|] eqn:Hl; try discriminate.
  intros [= <- <-].
  apply find_vftables_loop_adds in Hl.
  destruct Hl as (hits & -> & -> & _ & Hall & Hsorted).
  exists s, H, (map (vftable_item s) hits).
  repeat split; auto.
  - rewrite length_map. lia.
  - apply Forall_map. eapply Forall_impl; [|exact Hall].
    intros x (Hx & Hm & Hc). simpl.
    replace (load_address s + x - load_address s) with x by lia.
    rewrite Z.sub_0_r in Hm. repeat split; auto; try lia.
    rewrite Z.add_comm. now apply same_offset_alignment.
  - clear Hall. induction Hsorted as [|x l _ IH Hx]; simpl; constructor; auto.
    apply Forall_map. eapply Forall_impl; [|exact Hx].
    intros y Hy. simpl. lia.
Qed.

Lemma find_vftables_appends_increasing_witness :
  exists s H new,
    object_section located_context = Some s /\
    header_length located_context = Some H /\
    [{| item_type := Vftable; location := 0x401000 |}] = [] ++ new /\
    1 = Z.of_nat (List.length new) /\
    Forall (fun it =>
              item_type it = Vftable /\
              load_address s <= location it < load_address s + size s - H /\
              (location it - load_address s) mod 4 = 0 /\
              location it mod 4 = load_address s mod 4 /\
              vftable_candidate s H (location it - load_address s) = true)
           new /\
    StronglySorted (fun a b => location a < location b) new.
Proof.
  exact (find_vftables_appends_increasing located_context [] _ 1 eq_refl).
Defined.

(** X8.  A section that is not longer than the header length is not scanned:
    the loop condition fails at once, nothing is read, nothing is
    enqueued and the count is zero. *)
Theorem short_object_section_adds_nothing
    (context : Context) (q : WorkQueue) (s : PESection) (H : Z) :
  object_section context = Some s ->
  header_length context = Some H ->
  size s <= H ->
  find_vftables context q = Ok (0, q) /\
  forall c,
    find_vftables_loop (Z.to_nat (size s - H)) s H 0 0 q c = Ok ((0, q), c).
Proof.
  intros Hs HH Hshort.
  assert (Hloop : forall fuel c,
             find_vftables_loop fuel s H 0 0 q c = Ok ((0, q), c)).
  { intros fuel c. destruct fuel; simpl;
      destruct (Z.ltb_spec 0 (size s - H)); try lia; reflexivity. }
  split; [|intros c; apply Hloop].
  unfold find_vftables, find_vftables_in, value_of.
  now rewrite Hs, HH, Hloop.
Qed.

Lemma short_object_section_adds_nothing_witness :
  find_vftables (set_tobject empty_context 40 stub_section) [] = Ok (0, []).
Proof.
  assert (Hshort : size stub_section <= 40) by (simpl; lia).
  exact (proj1 (short_object_section_adds_nothing
                  (set_tobject empty_context 40 stub_section) []
                  stub_section 40 eq_refl eq_refl Hshort)).
Defined.

Lemma find_vftables_loop_ends (fuel : nat) :
  forall s H i found q c,
    size s - H - i <= 4 * Z.of_nat fuel ->
    find_vftables_loop fuel s H i found q c <> OutOfFuel.
Proof.
  induction fuel as [|fuel IH]; intros s H i found q c Hfuel; simpl;
    destruct (Z.ltb_spec i (size s - H)) as [Hlt|Hge];
    try (unfold ret; discriminate); try lia.
  unfold bind.
  pose proof (vftable_probe_short s H i c) as Hshort.
  destruct (vftable_probe s H i c) as [[hit c1]|e|] eqn:Hp;
    try discriminate.
  - destruct hit; apply IH; lia.
  - exfalso. revert Hp. unfold vftable_probe, bind, seek, unpack_I, ret.
    simpl.
    destruct (read_u32 (stream_data s) i); [|discriminate].
    destruct (load_address s + i + H =? z); [|discriminate].
    simpl. unfold bind, unpack_I, ret. simpl.
    repeat match goal with
           | |- context [match read_u32 ?d ?o with _ => _ end] =>
               destruct (read_u32 d o); simpl; try discriminate
           end.
Qed.

(** X9.  Once the object section and the header length are set,
    [_find_vftables] always ends, and the only way it can fail is a
    short read: a header that runs past the end of the stream. *)
Theorem find_vftables_ends (context : Context) (q : WorkQueue)
    (s : PESection) (H : Z) :
  object_section context = Some s ->
  header_length context = Some H ->
  (exists n q', find_vftables context q = Ok (n, q')) \/
  find_vftables context q = Raise StructError.
Proof.
  intros Hs HH.
  pose proof (find_vftables_raises context q) as Hr.
  unfold find_vftables, find_vftables_in, value_of in *.
  rewrite Hs, HH in *.
  pose proof (find_vftables_loop_ends (Z.to_nat (size s - H)) s H 0 0 q
                fresh_cursor ltac:(lia)) as Hend.
  pose proof (find_vftables_loop_short (Z.to_nat (size s - H)) s H 0 0 q
                fresh_cursor) as Hshort.
  destruct (find_vftables_loop (Z.to_nat (size s - H)) s H 0 0 q fresh_cursor)
    as [[[n q'] c']|e|]; [left; eauto| |contradiction].
  right. now rewrite (Hshort e eq_refl).
Qed.

Lemma find_vftables_ends_witness :
  (exists n q', find_vftables located_context [] = Ok (n, q')) \/
  find_vftables located_context [] = Raise StructError.
Proof.
  exact (find_vftables_ends located_context [] tobject_section 40
                            eq_refl eq_refl).
Defined.

(* ================================================================== *)
(** * Further properties: the driver *)

Lemma frame_refl (c : Context) : frame c c.
Proof. repeat split. Qed.

Lemma frame_trans (c0 c1 c2 : Context) :
  frame c0 c1 -> frame c1 c2 -> frame c0 c2.
Proof.
  intros (H1 & H2 & H3 & H4) (K1 & K2 & K3 & K4).
  repeat split; congruence.
Qed.

Lemma frame_add_items (l : list RecoveredObject) :
  forall c, frame c (add_items c l).
Proof.
  induction l as [|o l IH]; intros c; [apply frame_refl|].
  apply frame_trans with (append_item c o); [repeat split|apply IH].
Qed.

Lemma frame_locate (secs : list PESection) :
  forall found c, frame c (ctx (fst (locate_tobject secs found c))).
Proof.
  induction secs as [|s rest IH]; intros found c; simpl;
    [apply frame_refl|].
  destruct (find_tobject s) as [[res|]|e|]; simpl; try apply frame_refl.
  - destruct found; simpl; [apply frame_refl|].
    specialize (IH true (set_tobject c (vftable_length res) s)).
    destruct (locate_tobject rest true _). simpl in *.
    eapply frame_trans; [|exact IH]. repeat split.
  - specialize (IH found c).
    destruct (locate_tobject rest found c). exact IH.
Qed.

Lemma frame_parse_queue (w : World) (p : Pass) (cs : PESection)
    (fuel : nat) (c : Context) (q : WorkQueue) :
  frame c (ctx (parse_queue w p cs fuel c q)).
Proof. rewrite parse_queue_ctx. apply frame_add_items. Qed.

Lemma frame_analyse_objects (w : World) (cs : PESection) (fuel : nat)
    (c : Context) :
  frame c (ctx (analyse_objects w cs fuel c)).
Proof.
  destruct (analyse_objects_cases w cs fuel c)
    as [(_ & -> & _)|(n & q & _ & [[_ ->]|[_ ->]])].
  - apply frame_refl.
  - apply frame_parse_queue.
  - cbn [after ctx].
    eapply frame_trans; [apply frame_parse_queue|].
    eapply frame_trans; [|apply frame_parse_queue].
    repeat split.
Qed.

(** X10.  In every run, however it ends, [analyse] sets the two section lists
    of the context to the code and data sections of the executable, and
    leaves the license and the unit list that [__init__] recorded as
    they were. *)
Theorem analyse_sets_only_recovery_state (w : World) (fuel : nat) :
  let r := analyse w fuel in
  code_sections (ctx r) = find_code_sections w /\
  data_sections (ctx r) = find_data_sections w /\
  license (ctx r) = license (context0 w) /\
  units (ctx r) = units (context0 w).
Proof.
  set (c1 := set_sections (context0 w) (find_code_sections w)
                          (find_data_sections w)).
  assert (Hgoal : frame c1 (ctx (analyse w fuel))).
  { rewrite analyse_unfold. fold c1.
    destruct (select_code_section (find_code_sections w)) as [cs|];
      [|apply frame_refl].
    cbn [after ctx].
    pose proof (frame_locate (find_code_sections w) false c1) as Hl.
    destruct (locate_tobject (find_code_sections w) false c1) as [rl found].
    simpl in Hl.
    destruct (status rl); auto. destruct found; cbn [after ctx]; auto.
    eapply frame_trans; [exact Hl|apply frame_analyse_objects]. }
  destruct Hgoal as (H1 & H2 & H3 & H4). cbv zeta.
  rewrite H1, H2, H3, H4. repeat split.
Qed.

(** ** What base-object discovery records *)

Lemma locate_found_ctx (secs : list PESection) :
  forall c, ctx (fst (locate_tobject secs true c)) = c.
Proof.
  induction secs as [|s rest IH]; intros c; simpl; auto.
  destruct (find_tobject s) as [[res|]|e|]; simpl; auto.
  specialize (IH c). destruct (locate_tobject rest true c). exact IH.
Qed.

Lemma locate_found_finished (secs : list PESection) :
  forall c, status (fst (locate_tobject secs true c)) = Finished ->
            Forall scan_finds_nothing secs.
Proof.
  induction secs as [|s rest IH]; intros c; simpl; [constructor|].
  destruct (find_tobject s) as [[res|]|e|] eqn:Hs; simpl; try discriminate.
  specialize (IH c). destruct (locate_tobject rest true c). simpl in *.
  intros Hf. constructor; auto.
Qed.

Lemma scanned_app (l1 l2 : list Event) :
  scanned (l1 ++ l2) = scanned l1 ++ scanned l2.
Proof.
  induction l1 as [|e l1 IH]; simpl; auto.
  destruct e; auto. simpl. now rewrite IH.
Qed.

Lemma locate_found_scanned (secs : list PESection) :
  forall found c,
    exists k, scanned (events (fst (locate_tobject secs found c)))
              = firstn k secs /\
              (status (fst (locate_tobject secs found c)) = Finished ->
               scanned (events (fst (locate_tobject secs found c))) = secs).
Proof.
  induction secs as [|s rest IH]; intros found c; simpl.
  - exists 0%nat. auto.
  - destruct (find_tobject s) as [[res|]|e|]; simpl.
    + destruct found; simpl.
      * exists 1%nat. split; [reflexivity|discriminate].
      * destruct (IH true (set_tobject c (vftable_length res) s))
          as (k & Hk & Hall).
        destruct (locate_tobject rest true _). simpl in *.
        exists (S k). rewrite Hk. split; auto.
        intros Hf. now rewrite <- Hk, Hall.
    + destruct (IH found c) as (k & Hk & Hall).
      destruct (locate_tobject rest found c). simpl in *.
      exists (S k). rewrite Hk. split; auto.
      intros Hf. now rewrite <- Hk, Hall.
    + exists 1%nat. split; [reflexivity|discriminate].
    + exists 1%nat. split; [reflexivity|discriminate].
Qed.

(** Once a section has accepted, the context holds the first accepting
    section and its length; when step 1 ends normally that section is
    the only one that accepts. *)
Lemma locate_tobject_records (secs : list PESection) :
  forall c,
    let r := fst (locate_tobject secs false c) in
    let f := snd (locate_tobject secs false c) in
    (status r = Finished /\ f = true) \/
    status r = Raised ObjectsInMoreThanOneSection ->
    exists l1 s l2 res,
      secs = l1 ++ s :: l2 /\
      Forall scan_finds_nothing l1 /\
      find_tobject s = Ok (Some res) /\
      ctx r = set_tobject c (vftable_length res) s /\
      (status r = Finished -> Forall scan_finds_nothing l2).
Proof.
  induction secs as [|s rest IH]; intros c; simpl.
  - intros [[_ Hf]|Hs]; discriminate.
  - destruct (find_tobject s) as [[res|]|e|] eqn:Hs; simpl.
    + intros _. exists [], s, rest, res.
      pose proof (locate_found_ctx rest
                    (set_tobject c (vftable_length res) s)) as Hc.
      pose proof (locate_found_finished rest
                    (set_tobject c (vftable_length res) s)) as Hf.
      destruct (locate_tobject rest true _). simpl in *.
      repeat split; auto.
    + specialize (IH c).
      destruct (locate_tobject rest false c) as [r f]. simpl in *.
      intros Hcase. destruct (IH Hcase) as (l1 & s' & l2 & res & -> & H1 & H2 & H3 & H4).
      exists (s :: l1), s', l2, res. repeat split; auto.
    + intros [[Hf _]|Hf]; [discriminate|].
      pose proof (find_tobject_outcomes s) as Ho. rewrite Hs in Ho.
      subst e. discriminate.
    + intros [[Hf _]|Hf]; discriminate.
Qed.

(** Either the run stops before step 2, without any event of a later
    stage, or exactly one code section accepted: the context records it
    with its length, every code section has been scanned once, in order,
    and steps 2 to 5 follow. *)
Lemma analyse_stage_two (w : World) (fuel : nat) :
  let r := analyse w fuel in
  let c1 := set_sections (context0 w) (find_code_sections w)
                         (find_data_sections w) in
  (forallb (fun e => negb (is_later_stage e)) (events r) = true /\
   status r <> Finished /\ status r <> Unfinished)
  \/ exists cs pre l1 s l2 res,
       select_code_section (find_code_sections w) = Some cs /\
       find_code_sections w = l1 ++ s :: l2 /\
       Forall scan_finds_nothing l1 /\ Forall scan_finds_nothing l2 /\
       find_tobject s = Ok (Some res) /\
       forallb (fun e => negb (is_later_stage e)) pre = true /\
       scanned pre = find_code_sections w /\
       r = after pre (analyse_objects w cs fuel
                        (set_tobject c1 (vftable_length res) s)).
Proof.
  intros r c1. subst r.
  destruct (analyse_cases w fuel)
    as [(Hlater & _ & _ & Hst)|_].
  { left. split; auto.
    destruct Hst as [[-> _]|[[-> _]|[-> _]]]; split; discriminate. }
  rewrite analyse_unfold. fold c1.
  set (pre0 := EvFindInitTable :: _).
  assert (Hpre0 : forallb (fun e => negb (is_later_stage e)) pre0 = true
                  /\ scanned pre0 = []).
  { subst pre0. destruct (truthy (find_init_table w)); split; reflexivity. }
  destruct Hpre0 as [Hpre0 Hsc0].
  destruct (select_code_section (find_code_sections w)) as [cs|] eqn:Hsel.
  - set (pre1 := EvLog Info "Analysing section" :: _).
    assert (Hpre1 : forallb (fun e => negb (is_later_stage e)) pre1 = true
                    /\ scanned pre1 = []).
    { subst pre1. destruct (find_init_table w) as [t|]; simpl; auto.
      destruct (negb (t =? 0)); split; reflexivity. }
    destruct Hpre1 as [Hpre1 Hsc1].
    pose proof (locate_tobject_spec (find_code_sections w) false c1) as Hl.
    pose proof (locate_tobject_records (find_code_sections w) c1) as Hrec.
    destruct (locate_found_scanned (find_code_sections w) false c1)
      as (k & _ & Hscan).
    destruct (locate_tobject (find_code_sections w) false c1) as [rl found].
    simpl in Hl, Hrec, Hscan. destruct Hl as (Hlater & _ & _ & _ & Hst).
    destruct (status rl) eqn:Hs; try contradiction.
    + destruct found.
      * destruct (Hrec (or_introl (conj eq_refl eq_refl)))
          as (l1 & s & l2 & res & Heq & H1 & Hfind & Hctx & H2).
        right. exists cs, (pre0 ++ pre1 ++ events rl), l1, s, l2, res.
        split; [reflexivity|]. split; [exact Heq|].
        split; [exact H1|]. split; [now apply H2|].
        split; [exact Hfind|]. split; [|split].
        -- now rewrite !forallb_app, Hpre0, Hpre1, Hlater.
        -- rewrite !scanned_app, Hsc0, Hsc1. now apply Hscan.
        -- rewrite !after_after, Hctx, <- app_assoc. reflexivity.
      * left. cbn [after events status]. repeat split; try discriminate.
        rewrite !forallb_app, Hpre0, Hpre1, Hlater. reflexivity.
    + left. cbn [after events status]. rewrite Hs.
      repeat split; try discriminate.
      now rewrite !forallb_app, Hpre0, Hpre1, Hlater.
  - left. cbn [after events status]. repeat split; try discriminate.
    now rewrite forallb_app, Hpre0.
Qed.

(** X11.  A run that reaches the end of [analyse] leaves a context in which
    [object_section] is the one code section whose scan accepted (every
    other code section was scanned and found nothing), [header_length]
    is the length the locator derived there, and [version] is what
    [VersionHelper] computed from the context as Pass A left it: the
    same section and length, and exactly the objects built before the
    inference. *)
Theorem finished_run_state (w : World) (fuel : nat) :
  let r := analyse w fuel in
  status r = Finished ->
  exists l1 s l2 res ca before later,
    find_code_sections w = l1 ++ s :: l2 /\
    Forall scan_finds_nothing l1 /\ Forall scan_finds_nothing l2 /\
    find_tobject s = Ok (Some res) /\
    object_section (ctx r) = Some s /\
    header_length (ctx r) = Some (vftable_length res) /\
    events r = before ++ EvVersion :: later /\
    version (ctx r) = Some (VersionHelper w ca) /\
    items ca = items (context0 w) ++ built before /\
    object_section ca = Some s /\
    header_length ca = Some (vftable_length res).
Proof.
  intros r Hfin. subst r.
  destruct (analyse_stage_two w fuel)
    as [(_ & Hnf & _)
       |(cs & pre & l1 & s & l2 & res & _ & Heq & H1 & H2 & Hfind & Hpre
         & _ & Hr)]; [contradiction|].
  rewrite Hr in *. clear Hr.
  set (c2 := set_tobject _ (vftable_length res) s) in *.
  destruct (analyse_objects_cases w cs fuel c2)
    as [(_ & _ & Hst)|(n & q & _ & [[Hna Ho]|[Ha Ho]])].
  - cbn [after status] in Hfin.
    destruct Hst as [Hst|[Hst|[Hst|Hst]]]; rewrite Hst in Hfin; discriminate.
  - rewrite Ho in Hfin. cbn [after status] in Hfin. contradiction.
  - rewrite Ho. rewrite Ho in Hfin. clear Ho.
    set (a := parse_queue w PassA cs fuel c2 q) in *.
    set (b := parse_queue w PassB cs fuel _ _) in *.
    pose proof (parse_queue_ctx w PassA cs fuel c2 q) as Hca. fold a in Hca.
    pose proof (parse_queue_ctx w PassB cs fuel
                  (set_version (ctx a) (VersionHelper w (ctx a))) (wq a))
      as Hcb.
    fold b in Hcb.
    destruct (add_items_fields (built (events a)) c2)
      as (Hai & _ & _ & Hah & Hao & _).
    destruct (add_items_fields (built (events b))
                (set_version (ctx a) (VersionHelper w (ctx a))))
      as (_ & _ & _ & Hbh & Hbo & Hbv).
    rewrite <- Hca in Hai, Hah, Hao. rewrite <- Hcb in Hbh, Hbo, Hbv.
    exists l1, s, l2, res, (ctx a),
      (pre ++ [EvLog Info "Step 2"; EvFindVftables; EvLog Info "Step 3"]
           ++ events a ++ [EvLog Info "Step 4"]),
      (EvLog Info "Step 5" :: events b).
    cbn [after ctx events].
    repeat split; auto.
    + rewrite Hbo. simpl. rewrite Hao. reflexivity.
    + rewrite Hbh. simpl. rewrite Hah. reflexivity.
    + rewrite <- !app_assoc. reflexivity.
    + rewrite Hai. rewrite !built_app.
      rewrite (built_quiet _ (later_stage_quiet _ Hpre)). simpl.
      now rewrite app_nil_r.
Qed.

Lemma finished_run_state_witness :
  exists l1 s l2 res ca before later,
    find_code_sections split_world = l1 ++ s :: l2 /\
    Forall scan_finds_nothing l1 /\ Forall scan_finds_nothing l2 /\
    find_tobject s = Ok (Some res) /\
    object_section (ctx (analyse split_world 5)) = Some s /\
    header_length (ctx (analyse split_world 5))
    = Some (vftable_length res) /\
    events (analyse split_world 5) = before ++ EvVersion :: later /\
    version (ctx (analyse split_world 5))
    = Some (VersionHelper split_world ca) /\
    items ca = items (context0 split_world) ++ built before /\
    object_section ca = Some s /\
    header_length ca = Some (vftable_length res).
Proof.
  exact (finished_run_state split_world 5 eq_refl).
Defined.

(** ** The order of the scans and of the call of [parse_init_table] *)

Lemma object_stage_events (l : list Event) :
  forallb is_object_stage l = true ->
  scanned l = [] /\ filter is_parse_init_table l = [].
Proof.
  induction l as [|e l IH]; simpl; auto.
  intros H. apply andb_prop in H. destruct H as [He Hl].
  destruct (IH Hl) as [H1 H2].
  destruct e; simpl in *; auto; discriminate.
Qed.

Lemma pass_events_object_stage (p : Pass) (cs : PESection) (l : list Event) :
  Forall (pass_event p cs) l -> forallb is_object_stage l = true.
Proof.
  induction 1 as [|e l He _ IH]; simpl; auto.
  destruct He as (k & loc & o & -> & _). exact IH.
Qed.

Lemma analyse_objects_object_stage (w : World) (cs : PESection) (fuel : nat)
    (c : Context) :
  forallb is_object_stage (events (analyse_objects w cs fuel c)) = true.
Proof.
  destruct (analyse_objects_cases w cs fuel c)
    as [(Hev & _ & _)|(n & q & _ & [[_ ->]|[_ ->]])].
  - now rewrite Hev.
  - cbn [after events]. rewrite forallb_app. simpl.
    eapply pass_events_object_stage, parse_queue_events.
  - cbn [after events]. rewrite !forallb_app. simpl.
    rewrite (pass_events_object_stage PassA cs _
               (parse_queue_events _ _ _ _ _ _)).
    rewrite (pass_events_object_stage PassB cs _
               (parse_queue_events _ _ _ _ _ _)).
    reflexivity.
Qed.

(** X12.  The TObject scans of a run go through the code sections in order,
    each at most once: the scanned sections are always a prefix of the
    list of code sections, and all of it, each section exactly once,
    unless no section was selected or an exception left the run. *)
Theorem code_sections_scanned_in_order (w : World) (fuel : nat) :
  let r := analyse w fuel in
  (exists k, scanned (events r) = firstn k (find_code_sections w)) /\
  ((forall e, status r <> Raised e) ->
   select_code_section (find_code_sections w) <> None ->
   scanned (events r) = find_code_sections w).
Proof.
  intros r. subst r. rewrite analyse_unfold.
  set (c1 := set_sections (context0 w) (find_code_sections w)
                          (find_data_sections w)).
  set (pre0 := EvFindInitTable :: _).
  assert (Hsc0 : scanned pre0 = []).
  { subst pre0. destruct (truthy (find_init_table w)); reflexivity. }
  destruct (select_code_section (find_code_sections w)) as [cs|].
  - set (pre1 := EvLog Info "Analysing section" :: _).
    assert (Hsc1 : scanned pre1 = []).
    { subst pre1. destruct (find_init_table w) as [t|]; simpl; auto.
      destruct (negb (t =? 0)); reflexivity. }
    destruct (locate_found_scanned (find_code_sections w) false c1)
      as (k & Hk & Hall).
    pose proof (locate_tobject_spec (find_code_sections w) false c1) as Hl.
    destruct (locate_tobject (find_code_sections w) false c1) as [rl found].
    simpl in Hk, Hall, Hl. destruct Hl as (_ & _ & _ & _ & Hst).
    assert (Hobj : forall c, scanned (events (analyse_objects w cs fuel c))
                             = []).
    { intros c. apply object_stage_events, analyse_objects_object_stage. }
    destruct (status rl) eqn:Hs; try contradiction; [destruct found|];
      cbn [after events status];
      rewrite ?scanned_app, ?Hsc0, ?Hsc1, ?Hobj, ?app_nil_r; simpl;
      rewrite ?app_nil_r.
    + rewrite Hall by auto. split; auto.
      exists (List.length (find_code_sections w)). now rewrite firstn_all.
    + rewrite Hall by auto. split; auto.
      exists (List.length (find_code_sections w)). now rewrite firstn_all.
    + split; [eauto|]. intros Hno _. rewrite Hs in Hno.
      exfalso. eapply Hno. reflexivity.
  - cbn [after events]. rewrite scanned_app, Hsc0. simpl. split.
    + exists 0%nat. reflexivity.
    + intros _ Hsel. now contradiction Hsel.
Qed.

Lemma code_sections_scanned_in_order_witness :
  scanned (events (analyse split_world 5)) = [stub_section; tobject_section].
Proof.
  apply (proj2 (code_sections_scanned_in_order split_world 5)).
  - intros e H. vm_compute in H. discriminate.
  - intros H. vm_compute in H. discriminate.
Defined.

Lemma forallb_filter_nil {A} (f : A -> bool) (l : list A) :
  forallb (fun x => negb (f x)) l = true -> filter f l = [].
Proof.
  induction l as [|x l IH]; simpl; auto.
  intros H. apply andb_prop in H. destruct H as [Hx Hl].
  destruct (f x); [discriminate|auto].
Qed.

(** X13.  [parse_init_table] is called at most once in a run: exactly when the
    table position is truthy (found, and not zero) and a code section
    was selected; it is given that section and that position, and the
    call precedes every TObject scan. *)
Theorem parse_init_table_called_once (w : World) (fuel : nat) :
  let r := analyse w fuel in
  filter is_parse_init_table (events r)
  = match select_code_section (find_code_sections w), find_init_table w with
    | Some cs, Some p =>
        if negb (p =? 0) then [EvParseInitTable cs p] else []
    | _, _ => []
    end /\
  exists pre post,
    events r = pre ++ post /\ scanned pre = [] /\
    filter is_parse_init_table post = [].
Proof.
  intros r. subst r. rewrite analyse_unfold.
  set (c1 := set_sections (context0 w) (find_code_sections w)
                          (find_data_sections w)).
  destruct (select_code_section (find_code_sections w)) as [cs|].
  - pose proof (locate_no_parse (find_code_sections w) false c1) as Hloc.
    destruct (locate_tobject (find_code_sections w) false c1) as [rl found].
    simpl in Hloc. apply forallb_filter_nil in Hloc.
    assert (Hobj : forall c,
               filter is_parse_init_table
                      (events (analyse_objects w cs fuel c)) = []).
    { intros c. apply forallb_filter_nil, analyse_objects_no_parse. }
    set (rest := match status rl with
                 | Finished => _
                 | _ => rl
                 end).
    assert (Hrest : filter is_parse_init_table (events rest) = []).
    { subst rest. destruct (status rl); auto.
      destruct found; cbn [after events];
        rewrite filter_app, Hloc; simpl; auto. }
    cbn [after events].
    set (pre0 := EvFindInitTable :: _).
    set (P := match find_init_table w with Some p => _ | None => _ end).
    split.
    + rewrite !filter_app, Hrest. subst pre0 P.
      destruct (find_init_table w) as [p|]; simpl;
        [destruct (negb (p =? 0))|]; reflexivity.
    + exists (pre0 ++ EvLog Info "Analysing section" :: P),
        ([EvLog Info "Step 1"] ++ events rest).
      split; [|split].
      * rewrite <- app_assoc. simpl. rewrite <- app_assoc. reflexivity.
      * rewrite scanned_app. subst pre0 P.
        destruct (truthy (find_init_table w));
          destruct (find_init_table w); reflexivity.
      * simpl. exact Hrest.
  - cbn [after events]. split.
    + destruct (truthy (find_init_table w)); reflexivity.
    + eexists _, []. rewrite app_nil_r. split; [reflexivity|].
      split; [|reflexivity].
      destruct (truthy (find_init_table w)); reflexivity.
Qed.

(** ** The kinds Pass A builds *)

Lemma analyse_objects_pass_events (w : World) (cs : PESection) (fuel : nat)
    (c : Context) (p : Pass) (k : ObjKind) (s : PESection) (loc : Z)
    (o : outcome) :
  In (EvConstruct p k s loc o) (events (analyse_objects w cs fuel c)) ->
  wanted (pass_filter p) {| item_type := k; location := loc |} = true.
Proof.
  assert (Hpass : forall p' l,
             Forall (pass_event p' cs) l ->
             In (EvConstruct p k s loc o) l ->
             wanted (pass_filter p) {| item_type := k; location := loc |}
             = true).
  { intros p' l Hl Hin. rewrite Forall_forall in Hl.
    destruct (Hl _ Hin) as (k' & loc' & o' & Heq & Hw).
    inversion Heq; subst. exact Hw. }
  destruct (analyse_objects_cases w cs fuel c)
    as [(Hev & _ & _)|(n & q & _ & [[_ ->]|[_ ->]])].
  - rewrite Hev. simpl. intros [H|[H|[]]]; discriminate.
  - cbn [after events]. intros Hin. apply in_app_or in Hin.
    destruct Hin as [Hin|Hin].
    + simpl in Hin. destruct Hin as [H|[H|[H|[]]]]; discriminate.
    + eapply Hpass; [apply parse_queue_events|exact Hin].
  - cbn [after events]. intros Hin.
    repeat (apply in_app_or in Hin; destruct Hin as [Hin|Hin]).
    + simpl in Hin. destruct Hin as [H|[H|[H|[]]]]; discriminate.
    + eapply Hpass; [apply parse_queue_events|exact Hin].
    + simpl in Hin. destruct Hin as [H|[H|[H|[]]]]; discriminate.
    + eapply Hpass; [apply parse_queue_events|exact Hin].
Qed.

(** X14.  Pass A only ever constructs objects of kind Vftable, even when
    constructors have queued items of other kinds in the meantime: those
    wait for Pass B. *)
Theorem pass_a_constructs_vftables_only (w : World) (fuel : nat)
    (k : ObjKind) (s : PESection) (loc : Z) (o : outcome) :
  In (EvConstruct PassA k s loc o) (events (analyse w fuel)) ->
  k = Vftable.
Proof.
  intros Hin.
  assert (Hw : wanted (pass_filter PassA)
                      {| item_type := k; location := loc |} = true).
  { destruct (analyse_cases w fuel)
      as [(Hlater & _)|(_ & cs & pre & c2 & Hsel & Hpre & _ & _ & Hr)].
    - rewrite forallb_forall in Hlater.
      specialize (Hlater _ Hin). discriminate.
    - rewrite Hr in Hin. cbn [after events] in Hin.
      apply in_app_or in Hin. destruct Hin as [Hin|Hin].
      + rewrite forallb_forall in Hpre.
        specialize (Hpre _ Hin). discriminate.
      + eapply analyse_objects_pass_events; eauto. }
  simpl in Hw. destruct k; [reflexivity|discriminate].
Qed.

Lemma pass_a_constructs_vftables_only_witness :
  In (EvConstruct PassA Vftable tobject_section 0x401000
        (Constructed {| obj_kind := Vftable; obj_va := 0x401000;
                        obj_fields := [] |}))
     (events (analyse chained_world 5)) /\
  Vftable = Vftable.
Proof.
  assert (Hin : In (EvConstruct PassA Vftable tobject_section 0x401000
                      (Constructed {| obj_kind := Vftable;
                                      obj_va := 0x401000;
                                      obj_fields := [] |}))
                   (events (analyse chained_world 5)))
    by (apply nth_error_In with (n := 9%nat); reflexivity).
  split; [exact Hin|].
  exact (pass_a_constructs_vftables_only chained_world 5 Vftable
           tobject_section 0x401000 _ Hin).
Defined.

(** ** Runs of constructors that enqueue nothing, and the loop bound *)

Lemma get_item_length (f : option ObjKind) (q : WorkQueue) :
  forall it q', get_item f q = Some (it, q') ->
                List.length q = S (List.length q').
Proof.
  induction q as [|x q IH]; intros it q'; simpl; [discriminate|].
  destruct (wanted f x).
  - now intros [= _ <-].
  - destruct (get_item f q) as [[y r]|] eqn:Hg; [|discriminate].
    intros [= _ <-]. simpl. f_equal. eapply IH; eauto.
Qed.

Lemma parse_queue_drains (w : World) (p : Pass) (cs : PESection) :
  constructors_enqueue_nothing w ->
  forall fuel c q,
    (List.length q <= fuel)%nat ->
    status (parse_queue w p cs fuel c q) <> Unfinished /\
    (List.length (wq (parse_queue w p cs fuel c q)) <= List.length q)%nat.
Proof.
  intros Hen fuel.
  induction fuel as [|fuel IH]; intros c q Hlen; simpl;
    destruct (get_item (pass_filter p) q) as [[item q1]|] eqn:Hget;
    simpl; try (split; [discriminate|lia]).
  - apply get_item_length in Hget. lia.
  - pose proof (get_item_length _ _ _ _ Hget) as Hq.
    pose proof (Hen (item_type item) cs (location item) c q1) as Hq2.
    destruct (construct w (item_type item) cs (location item) c q1)
      as [q2 r].
    simpl in Hq2. subst q2.
    destruct r as [obj|e]; [|destruct e]; simpl;
      try (split; [discriminate|lia]);
      match goal with
      | |- context [parse_queue w p cs fuel ?c' q1] =>
          destruct (IH c' q1 ltac:(lia)) as [Hs Hl]; split; auto; lia
      end.
Qed.

Lemma find_vftables_queue_length (c : Context) (q : WorkQueue) (n : Z)
    (s : PESection) (H : Z) :
  object_section c = Some s -> header_length c = Some H ->
  find_vftables c [] = Ok (n, q) ->
  (List.length q <= Z.to_nat (size s - H))%nat.
Proof.
  intros Hs HH. unfold find_vftables, find_vftables_in, value_of.
  rewrite Hs, HH.
  destruct (find_vftables_loop (Z.to_nat (size s - H)) s H 0 0 []
              fresh_cursor) as [[[n0 q0] c']|e|] eqn:Hl; try discriminate.
  intros [= _ <-]. apply find_vftables_loop_adds in Hl.
  destruct Hl as (hits & -> & _ & Hlen & _).
  simpl. now rewrite length_map.
Qed.

Lemma find_vftables_not_out_of_fuel (c : Context) (q : WorkQueue) :
  find_vftables c q <> OutOfFuel.
Proof.
  unfold find_vftables, find_vftables_in, value_of.
  destruct (object_section c) as [s|]; [|discriminate].
  destruct (header_length c) as [H|]; [|discriminate].
  pose proof (find_vftables_loop_ends (Z.to_nat (size s - H)) s H 0 0 q
                fresh_cursor ltac:(lia)) as Hend.
  destruct (find_vftables_loop _ s H 0 0 q fresh_cursor) as [[a c']|e|];
    try discriminate. contradiction.
Qed.

(** X15.  When the constructors add nothing to the queue, [analyse] ends: a
    loop bound of one turn per byte of the largest code section is
    enough for both passes to exhaust the queue. *)
Theorem analysis_ends_without_follow_up_work (w : World) (fuel : nat) :
  constructors_enqueue_nothing w ->
  (forall s, In s (find_code_sections w) -> size s <= Z.of_nat fuel) ->
  status (analyse w fuel) <> Unfinished.
Proof.
  intros Hen Hsize.
  destruct (analyse_stage_two w fuel)
    as [(_ & _ & Hnu)
       |(cs & pre & l1 & s & l2 & res & _ & Heq & _ & _ & Hfind & _ & _
         & ->)]; [exact Hnu|].
  cbn [after status].
  set (c2 := set_tobject _ (vftable_length res) s).
  pose proof (find_tobject_outcomes s) as Ho. rewrite Hfind in Ho.
  assert (Hin : In s (find_code_sections w))
    by (rewrite Heq; apply in_elt).
  specialize (Hsize s Hin).
  unfold analyse_objects.
  pose proof (find_vftables_not_out_of_fuel c2 []) as Hnf.
  pose proof (find_vftables_queue_length c2) as Hql.
  destruct (find_vftables c2 []) as [[n q]|e|]; simpl;
    try discriminate; [|contradiction].
  specialize (Hql q n s (vftable_length res) eq_refl eq_refl eq_refl).
  destruct (parse_queue_drains w PassA cs Hen fuel c2 q ltac:(lia))
    as [Hsa Hla].
  destruct (status (parse_queue w PassA cs fuel c2 q)) eqn:Hs;
    simpl; try discriminate; try congruence.
  apply parse_queue_drains; auto. lia.
Qed.

Lemma enqueue_nothing_split : constructors_enqueue_nothing split_world.
Proof. intros k s loc c q. reflexivity. Defined.

Lemma analysis_ends_without_follow_up_work_witness :
  status (analyse split_world 136) <> Unfinished.
Proof.
  apply analysis_ends_without_follow_up_work.
  - exact enqueue_nothing_split.
  - intros s Hin. simpl in Hin. destruct Hin as [<-|[<-|[]]]; simpl; lia.
Defined.

(** ** A second accepting section *)

Lemma locate_found_raise (secs : list PESection) :
  forall c,
    status (fst (locate_tobject secs true c))
    = Raised ObjectsInMoreThanOneSection ->
    exists l3 s2 l4 res2,
      secs = l3 ++ s2 :: l4 /\
      Forall scan_finds_nothing l3 /\
      find_tobject s2 = Ok (Some res2) /\
      scanned (events (fst (locate_tobject secs true c))) = l3 ++ [s2].
Proof.
  induction secs as [|s rest IH]; intros c; simpl; [discriminate|].
  destruct (find_tobject s) as [[res|]|e|] eqn:Hs; simpl; try discriminate.
  - intros _. exists [], s, rest, res. repeat split; auto.
  - specialize (IH c). destruct (locate_tobject rest true c). simpl in *.
    intros Hr. destruct (IH Hr) as (l3 & s2 & l4 & res2 & -> & H3 & Hf & Hsc).
    exists (s :: l3), s2, l4, res2. repeat split; auto.
    simpl. now rewrite Hsc.
  - intros [= ->].
    pose proof (find_tobject_outcomes s) as Ho. rewrite Hs in Ho.
    discriminate.
Qed.

Lemma locate_second_acceptance (secs : list PESection) :
  forall c,
    status (fst (locate_tobject secs false c))
    = Raised ObjectsInMoreThanOneSection ->
    exists l1 s l3 s2 l4 res res2,
      secs = l1 ++ s :: l3 ++ s2 :: l4 /\
      Forall scan_finds_nothing l1 /\ Forall scan_finds_nothing l3 /\
      find_tobject s = Ok (Some res) /\
      find_tobject s2 = Ok (Some res2) /\
      ctx (fst (locate_tobject secs false c))
      = set_tobject c (vftable_length res) s /\
      scanned (events (fst (locate_tobject secs false c)))
      = l1 ++ s :: l3 ++ [s2].
Proof.
  induction secs as [|s rest IH]; intros c; simpl; [discriminate|].
  destruct (find_tobject s) as [[res|]|e|] eqn:Hs; simpl; try discriminate.
  - pose proof (locate_found_ctx rest
                  (set_tobject c (vftable_length res) s)) as Hc.
    pose proof (locate_found_raise rest
                  (set_tobject c (vftable_length res) s)) as Hr.
    destruct (locate_tobject rest true _). simpl in *.
    intros Hst. destruct (Hr Hst) as (l3 & s2 & l4 & res2 & -> & H3 & Hf & Hsc).
    exists [], s, l3, s2, l4, res, res2. repeat split; auto.
    simpl. now rewrite Hsc.
  - specialize (IH c). destruct (locate_tobject rest false c). simpl in *.
    intros Hr.
    destruct (IH Hr)
      as (l1 & s1 & l3 & s2 & l4 & res & res2 & -> & H1 & H3 & Hf1 & Hf2
          & Hc & Hsc).
    exists (s :: l1), s1, l3, s2, l4, res, res2. repeat split; auto.
    simpl. now rewrite Hsc.
  - intros [= ->].
    pose proof (find_tobject_outcomes s) as Ho. rewrite Hs in Ho.
    discriminate.
Qed.

(** X17.  When two code sections accept and no scan fails, the scan stops at
    the second accepting section: the sections after it are never
    scanned, and the context keeps the first accepting section and its
    length (the exception is raised before the second one is
    recorded). *)
Theorem second_acceptance_stops_the_scan (w : World) (fuel : nat) :
  (2 <= List.length (accepting_sections w))%nat ->
  scans_return w ->
  let r := analyse w fuel in
  exists l1 s l3 s2 l4 res res2,
    find_code_sections w = l1 ++ s :: l3 ++ s2 :: l4 /\
    Forall scan_finds_nothing l1 /\ Forall scan_finds_nothing l3 /\
    find_tobject s = Ok (Some res) /\
    find_tobject s2 = Ok (Some res2) /\
    ctx r = set_tobject (set_sections (context0 w) (find_code_sections w)
                                      (find_data_sections w))
                        (vftable_length res) s /\
    scanned (events r) = l1 ++ s :: l3 ++ [s2].
Proof.
  intros Htwo Hall r. subst r. rewrite analyse_unfold.
  set (c1 := set_sections (context0 w) (find_code_sections w)
                          (find_data_sections w)).
  set (pre0 := EvFindInitTable :: _).
  assert (Hsc0 : scanned pre0 = []).
  { subst pre0. destruct (truthy (find_init_table w)); reflexivity. }
  destruct (select_code_section (find_code_sections w)) as [cs|] eqn:Hsel.
  - set (pre1 := EvLog Info "Analysing section" :: _).
    assert (Hsc1 : scanned pre1 = []).
    { subst pre1. destruct (find_init_table w) as [t|]; simpl; auto.
      destruct (negb (t =? 0)); reflexivity. }
    pose proof (locate_tobject_spec (find_code_sections w) false c1) as Hl.
    pose proof (locate_second_acceptance (find_code_sections w) c1) as Hsec.
    destruct (locate_tobject (find_code_sections w) false c1) as [rl found].
    simpl in Hl, Hsec. destruct Hl as (_ & _ & _ & _ & Hst).
    unfold tobject_hits in Hst. rewrite Nat.add_0_r in Hst.
    unfold accepting_sections in Htwo.
    destruct (status rl) eqn:Hs; try contradiction.
    + destruct Hst as [Hn _]. lia.
    + destruct Hst as [(-> & s & Hin & Hr)|[-> _]].
      * destruct (Hall s Hin) as [x Hx]. congruence.
      * destruct (Hsec eq_refl)
          as (l1 & s & l3 & s2 & l4 & res & res2 & Heq & H1 & H3 & Hf1
              & Hf2 & Hc & Hsc).
        exists l1, s, l3, s2, l4, res, res2.
        cbn [after ctx events].
        rewrite !scanned_app, Hsc0, Hsc1. simpl.
        repeat split; auto.
  - apply no_accepting_section in Hsel.
    unfold accepting_sections in Htwo. rewrite Hsel in Htwo.
    simpl in Htwo. lia.
Qed.

Lemma second_acceptance_stops_the_scan_witness :
  exists l1 s l3 s2 l4 res res2,
    find_code_sections twin_world = l1 ++ s :: l3 ++ s2 :: l4 /\
    Forall scan_finds_nothing l1 /\ Forall scan_finds_nothing l3 /\
    find_tobject s = Ok (Some res) /\
    find_tobject s2 = Ok (Some res2) /\
    ctx (analyse twin_world 5)
    = set_tobject (set_sections (context0 twin_world)
                                (find_code_sections twin_world)
                                (find_data_sections twin_world))
                  (vftable_length res) s /\
    scanned (events (analyse twin_world 5)) = l1 ++ s :: l3 ++ [s2].
Proof.
  assert (Htwo : (2 <= List.length (accepting_sections twin_world))%nat)
    by (vm_compute; lia).
  exact (second_acceptance_stops_the_scan twin_world 5 Htwo
           scans_return_twin).
Defined.

(** ** Which constructions a finished run asked for *)

Lemma requests_app (l1 l2 : list Event) :
  requests (l1 ++ l2) = requests l1 ++ requests l2.
Proof.
  induction l1 as [|e l1 IH]; simpl; auto.
  destruct e; auto. simpl. now rewrite IH.
Qed.

Lemma requests_later_stage (l : list Event) :
  forallb (fun e => negb (is_later_stage e)) l = true -> requests l = [].
Proof.
  induction l as [|e l IH]; simpl; auto.
  intros H. apply andb_prop in H. destruct H as [He Hl].
  destruct e; simpl in *; auto; discriminate.
Qed.

Lemma pass_a_builds_the_queue (w : World) (cs : PESection) :
  constructors_enqueue_nothing w ->
  forall fuel c q,
    Forall (fun it => item_type it = Vftable) q ->
    status (parse_queue w PassA cs fuel c q) = Finished ->
    requests (events (parse_queue w PassA cs fuel c q))
    = map (fun it => (PassA, Vftable, location it)) q /\
    wq (parse_queue w PassA cs fuel c q) = [].
Proof.
  intros Hen fuel.
  induction fuel as [|fuel IH]; intros c q Hq; simpl.
  - destruct q as [|it q]; simpl; auto.
    inversion Hq; subst.
    destruct (item_type it); [discriminate|discriminate].
  - destruct q as [|it q]; simpl; auto.
    inversion Hq as [|? ? Hit Hrest]; subst.
    destruct (item_type it) eqn:Hk; [|discriminate].
    simpl. rewrite !Hk.
    pose proof (Hen Vftable cs (location it) c q) as Hq2.
    destruct (construct w Vftable cs (location it) c q) as [q2 r].
    simpl in Hq2. subst q2.
    destruct r as [obj|e]; [|destruct e]; simpl; try discriminate;
      intros Hs;
      match goal with
      | |- context [parse_queue w PassA cs fuel ?c' q] =>
          destruct (IH c' q Hrest Hs) as [-> ->]
      end; auto.
Qed.

Lemma find_vftables_queue_kinds (c : Context) (q : WorkQueue) (n : Z) :
  find_vftables c [] = Ok (n, q) ->
  Forall (fun it => item_type it = Vftable) q.
Proof.
  unfold find_vftables, find_vftables_in, value_of.
  destruct (object_section c) as [s|]; [|discriminate].
  destruct (header_length c) as [H|]; [|discriminate].
  destruct (find_vftables_loop (Z.to_nat (size s - H)) s H 0 0 []
              fresh_cursor) as [[[n0 q0] c']|e|] eqn:Hl; try discriminate.
  intros [= _ <-]. apply find_vftables_loop_adds in Hl.
  destruct Hl as (hits & -> & _). simpl.
  apply Forall_map. apply Forall_forall. reflexivity.
Qed.

(** X18.  In a finished run whose constructors added nothing to the queue,
    the constructions are exactly the items the vftable scanner
    enqueued: each candidate address is handed once to the Vftable
    constructor in Pass A, in increasing address order, and Pass B
    constructs nothing. *)
Theorem finished_run_builds_each_candidate_once (w : World) (fuel : nat) :
  constructors_enqueue_nothing w ->
  status (analyse w fuel) = Finished ->
  exists c n q,
    object_section c = object_section (ctx (analyse w fuel)) /\
    header_length c = header_length (ctx (analyse w fuel)) /\
    find_vftables c [] = Ok (n, q) /\
    requests (events (analyse w fuel))
    = map (fun it => (PassA, Vftable, location it)) q.
Proof.
  intros Hen Hfin.
  destruct (analyse_stage_two w fuel)
    as [(_ & Hnf & _)
       |(cs & pre & l1 & s & l2 & res & _ & _ & _ & _ & _ & Hpre & _ & Hr)];
    [contradiction|].
  rewrite Hr in *. clear Hr.
  set (c2 := set_tobject _ (vftable_length res) s) in *.
  destruct (analyse_objects_cases w cs fuel c2)
    as [(_ & _ & Hst)|(n & q & Hfv & [[Hna Ho]|[Ha Ho]])].
  - cbn [after status] in Hfin.
    destruct Hst as [Hst|[Hst|[Hst|Hst]]]; rewrite Hst in Hfin; discriminate.
  - rewrite Ho in Hfin. cbn [after status] in Hfin. contradiction.
  - rewrite Ho. rewrite Ho in Hfin. clear Ho.
    cbn [after status ctx events] in *.
    pose proof (find_vftables_queue_kinds c2 q n Hfv) as Hkinds.
    destruct (pass_a_builds_the_queue w cs Hen fuel c2 q Hkinds Ha)
      as [Hreq Hwq].
    set (a := parse_queue w PassA cs fuel c2 q) in *.
    rewrite Hwq in *.
    exists c2, n, q.
    assert (Hb : forall c, parse_queue w PassB cs fuel c []
                           = {| status := Finished; ctx := c; wq := [];
                                events := [] |})
      by (intros c; destruct fuel; reflexivity).
    rewrite Hb. cbn [ctx events].
    pose proof (parse_queue_ctx w PassA cs fuel c2 q) as Hca. fold a in Hca.
    destruct (add_items_fields (built (events a)) c2)
      as (_ & _ & _ & Hah & Hao & _).
    rewrite <- Hca in Hah, Hao.
    repeat split; auto.
    rewrite !requests_app, (requests_later_stage _ Hpre), Hreq. simpl.
    now rewrite !app_nil_r.
Qed.

Lemma finished_run_builds_each_candidate_once_witness :
  exists c n q,
    object_section c = object_section (ctx (analyse split_world 5)) /\
    header_length c = header_length (ctx (analyse split_world 5)) /\
    find_vftables c [] = Ok (n, q) /\
    requests (events (analyse split_world 5))
    = map (fun it => (PassA, Vftable, location it)) q.
Proof.
  exact (finished_run_builds_each_candidate_once split_world 5
           enqueue_nothing_split eq_refl).
Defined.

(* ================================================================== *)
(** * Validation errors do not end a pass *)












(* ================================================================== *)
(** * The run without a unit initialisation table *)









(* ================================================================== *)
(** * The section the constructors and the table parser are given *)





(* ================================================================== *)
(** * Further properties: construction of the handler *)

(** X19.  When the executable has a DVCLAL resource that the license helper
    does not recognise, the handler is not constructed: building the
    "Unknown Delphi license" warning applies [hexlify] to the missing
    license, which raises a [TypeError] out of [__init__].  The warning
    is not logged, the context is left as it was, and the package
    information is never looked at. *)
Theorem unknown_license_stops_construction
    (L : Loaders) (c : Context) (filename : option string)
    (pe : option PEFile) (p : PEFile) (data : list byte) :
  loaded L filename pe p ->
  get_resource_data p RT_RCDATA "DVCLAL" = Some data ->
  data <> [] ->
  truthy_name (license_from_bytes L data) = false ->
  let r := __init__ L c filename pe in
  snd r = Some TypeError /\
  context (fst r) = c /\
  _pe (fst r) = Some p /\
  ~ In (EvLog Warning "Unknown Delphi license %s") (logged (fst r)).
Proof.
  intros Hload Hdata Hne Hlic.
  assert (Hpe : forall h,
             context h = c ->
             ~ In (EvLog Warning "Unknown Delphi license %s") (logged h) ->
             let r := _from_pefile L p h in
             snd r = Some TypeError /\ context (fst r) = c /\
             _pe (fst r) = Some p /\
             ~ In (EvLog Warning "Unknown Delphi license %s")
                  (logged (fst r))).
  { intros h Hc Hlog. unfold _from_pefile, _extract_access_license.
    cbn [_pe context logged]. rewrite Hdata.
    destruct data as [|b bs]; [contradiction|].
    destruct (license_from_bytes L (b :: bs)) as [[|a r]|];
      try discriminate; simpl; auto. }
  unfold __init__, loaded in *.
  destruct filename as [[|a f]|].
  - subst pe. apply Hpe; simpl; auto.
  - unfold _from_file. rewrite Hload. apply Hpe; simpl; auto.
    intros [H|[]]. discriminate.
  - subst pe. apply Hpe; simpl; auto.
Qed.

Lemma unknown_license_stops_construction_witness :
  snd (__init__ plain_loaders empty_context None (Some unlicensed_pe))
  = Some TypeError /\
  snd (__init__ plain_loaders empty_context (Some "a.exe"%string) None)
  = Some TypeError.
Proof.
  assert (Hne : [x00; x01] <> []) by discriminate.
  split.
  - exact (proj1 (unknown_license_stops_construction plain_loaders
                    empty_context None (Some unlicensed_pe) unlicensed_pe
                    [x00; x01] eq_refl eq_refl Hne eq_refl)).
  - exact (proj1 (unknown_license_stops_construction plain_loaders
                    empty_context (Some "a.exe"%string) None unlicensed_pe
                    [x00; x01] eq_refl eq_refl Hne eq_refl)).
Defined.

(** X20.  Whatever happens in [__init__], the recovery state of the context
    (section lists, header length, object section, version, items) is
    not touched.  When [__init__] returns normally, the context holds
    the license exactly when the executable has a non-empty DVCLAL
    resource (the name the helper recognised) and the unit list exactly
    when it has a non-empty PACKAGEINFO resource; a missing resource
    leaves the corresponding field as it was. *)
Theorem init_records_license_and_units
    (L : Loaders) (c : Context) (filename : option string)
    (pe : option PEFile) :
  let r := __init__ L c filename pe in
  (code_sections (context (fst r)) = code_sections c /\
   data_sections (context (fst r)) = data_sections c /\
   header_length (context (fst r)) = header_length c /\
   object_section (context (fst r)) = object_section c /\
   version (context (fst r)) = version c /\
   items (context (fst r)) = items c) /\
  forall p,
    loaded L filename pe p -> snd r = None ->
    _pe (fst r) = Some p /\
    license (context (fst r))
    = (if truthy_data (get_resource_data p RT_RCDATA "DVCLAL")
       then match get_resource_data p RT_RCDATA "DVCLAL" with
            | Some data => license_from_bytes L data
            | None => None
            end
       else license c) /\
    units (context (fst r))
    = (if truthy_data (get_resource_data p RT_RCDATA "PACKAGEINFO")
       then match get_resource_data p RT_RCDATA "PACKAGEINFO" with
            | Some data => match packageinfo_from_bytes L data with
                           | inl u => Some u
                           | inr _ => None
                           end
            | None => None
            end
       else units c).
Proof.
  assert (Hpe : forall p h,
             let r := _from_pefile L p h in
             (code_sections (context (fst r)) = code_sections (context h) /\
              data_sections (context (fst r)) = data_sections (context h) /\
              header_length (context (fst r)) = header_length (context h) /\
              object_section (context (fst r)) = object_section (context h) /\
              version (context (fst r)) = version (context h) /\
              items (context (fst r)) = items (context h)) /\
             (snd r = None ->
              _pe (fst r) = Some p /\
              license (context (fst r))
              = (if truthy_data (get_resource_data p RT_RCDATA "DVCLAL")
                 then match get_resource_data p RT_RCDATA "DVCLAL" with
                      | Some data => license_from_bytes L data
                      | None => None
                      end
                 else license (context h)) /\
              units (context (fst r))
              = (if truthy_data (get_resource_data p RT_RCDATA "PACKAGEINFO")
                 then match get_resource_data p RT_RCDATA "PACKAGEINFO" with
                      | Some data => match packageinfo_from_bytes L data with
                                     | inl u => Some u
                                     | inr _ => None
                                     end
                      | None => None
                      end
                 else units (context h)))).
  { intros p h.
    unfold _from_pefile, _extract_access_license, _extract_packageinfo.
    cbn [_pe context logged].
    destruct (get_resource_data p RT_RCDATA "DVCLAL") as [[|b bs]|];
      [| destruct (license_from_bytes L (b :: bs)) as [[|a r]|] |];
      destruct (get_resource_data p RT_RCDATA "PACKAGEINFO") as [[|b' bs']|];
      try destruct (packageinfo_from_bytes L (b' :: bs')) as [u|e];
      simpl; repeat split; auto; try discriminate. }
  unfold __init__, loaded.
  destruct filename as [[|a f]|].
  - destruct pe as [p|].
    + destruct (Hpe p {| _pe := None; context := c; logged := [] |})
        as [Hf Hs].
      split; [exact Hf|]. intros p' [= <-]. exact Hs.
    + split; [repeat split|]. intros p' Hp. discriminate.
  - unfold _from_file.
    destruct (load_pe L (String a f)) as [p|e].
    + destruct (Hpe p (log {| _pe := None; context := c; logged := [] |}
                          Info "Loading PE from file {}")) as [Hf Hs].
      split; [exact Hf|]. intros p' [= <-]. exact Hs.
    + split; [repeat split|]. intros p' Hp. discriminate.
  - destruct pe as [p|].
    + destruct (Hpe p {| _pe := None; context := c; logged := [] |})
        as [Hf Hs].
      split; [exact Hf|]. intros p' [= <-]. exact Hs.
    + split; [repeat split|]. intros p' Hp. discriminate.
Qed.

Lemma init_records_license_and_units_witness :
  license (context (fst (__init__ plain_loaders empty_context None
                                  (Some licensed_pe))))
  = Some "Professional"%string /\
  units (context (fst (__init__ plain_loaders empty_context None
                                (Some licensed_pe))))
  = Some [].
Proof.
  pose proof (proj2 (init_records_license_and_units plain_loaders
                       empty_context None (Some licensed_pe))
                    licensed_pe eq_refl eq_refl) as H.
  split; [exact (proj1 (proj2 H))|exact (proj2 (proj2 H))].
Defined.
